(** * BugRunner: the motion and drag logic of [src/components/BugRunner.tsx]

    The component keeps a position, a velocity, a drag flag with a grab
    offset, the measured bounds and a deadline for the next change of
    direction.  Five pieces of code touch that state: [measure] (run at mount
    and by the [ResizeObserver]), the animation-frame callback [step], and the
    three pointer handlers.

    Modelling choices.
    - A JavaScript [number] is a real number ([R]): the arithmetic of the
      component is read as exact arithmetic, and [Math.max], [Math.min],
      [Math.abs], [Math.hypot], [Math.cos], [Math.sin] are [Rmax], [Rmin],
      [Rabs], the square root of the sum of squares, [cos], [sin].  The
      code computes on binary64 numbers, where sums, products and the
      library functions are rounded.  The general theorems about the
      handlers are stated so that they read the same on the rounded
      operations: they speak of comparisons, clamping, sign changes and of
      the expressions the code evaluates, and do not rest on an identity
      that only exact arithmetic has (the length of (cos a, sin a), the
      cancellation of a sum, the inverse of [atan2]).  The examples that go
      through an angle (a bug heading straight down) take the exact cosine
      and sine of that angle.  Where the exact length of the velocity is
      what a property is about, it is settled on binary64 itself, with the
      primitive floats (section "The velocity on binary64").
    - [Math.random()] and [performance.now()] are inputs of the handler that
      calls them.
    - React state is one record; a handler is a function from the committed
      state to the next one.  The [setX] calls of a handler are applied in
      program order, which is how React runs its update queue (the functional
      updaters [setVel((v) => ...)] of [step] see the value left by the
      [setVel] before them).  [posRef.current] and [velRef.current] are
      re-assigned at every render, so inside a handler they are the committed
      [pos] and [vel] as long as a render has happened since the last
      update; [onPointerUpWith] takes the reference apart from the state for
      the case where it has not. *)

From Stdlib Require Import Floats QArith.
From Stdlib Require Import Reals Lra.
From Stdlib Require Import List.

Open Scope R_scope.

Module BugRunner.

(** ** Data *)

(** The [{ x, y }] object literals used for positions, velocities and the
    grab offset. *)
Record Vec2 : Type := mkVec2 { x : R; y : R }.

(** [useState({ w: 0, h: 0, padding: 24 })]. *)
Record Bounds : Type := mkBounds { w : R; h : R; padding : R }.

(** What the code reads of a [getBoundingClientRect()] result. *)
Record DOMRect : Type := mkDOMRect { left : R; top : R; width : R; height : R }.

(** What the code reads of a [PointerEvent]. *)
Record PointerEvent : Type := mkPointerEvent { clientX : R; clientY : R }.

Record State : Type := mkState {
  pos : Vec2;
  vel : Vec2;
  dragging : bool;
  dragOffset : Vec2;          (* dragOffsetRef.current *)
  bounds : Bounds;
  nextChangeAt : R
}.

Definition SPEED : R := 170.
Definition CHANGE_INTERVAL_MIN : R := 700.
Definition CHANGE_INTERVAL_MAX : R := 2200.

(** ** State setters *)

Definition setPos (p : Vec2) (s : State) : State :=
  mkState p (vel s) (dragging s) (dragOffset s) (bounds s) (nextChangeAt s).

Definition setVel (v : Vec2) (s : State) : State :=
  mkState (pos s) v (dragging s) (dragOffset s) (bounds s) (nextChangeAt s).

(** [setVel((v) => ...)]: the updater form. *)
Definition updVel (f : Vec2 -> Vec2) (s : State) : State :=
  setVel (f (vel s)) s.

Definition setDragging (b : bool) (s : State) : State :=
  mkState (pos s) (vel s) b (dragOffset s) (bounds s) (nextChangeAt s).

Definition setDragOffset (o : Vec2) (s : State) : State :=
  mkState (pos s) (vel s) (dragging s) o (bounds s) (nextChangeAt s).

Definition setBounds (b : Bounds) (s : State) : State :=
  mkState (pos s) (vel s) (dragging s) (dragOffset s) b (nextChangeAt s).

Definition setNextChangeAt (d : R) (s : State) : State :=
  mkState (pos s) (vel s) (dragging s) (dragOffset s) (bounds s) d.

(** ** Operations *)

(** [randUnitVector]; [rnd] is the value of [Math.random()].  [cos] and
    [sin] are the exact functions; [Math.cos] and [Math.sin] return binary64
    approximations of them, so the vector the code returns has length one
    only up to rounding. *)
Definition randUnitVector (rnd : R) : Vec2 :=
  let angle := rnd * PI * 2 in
  {| x := cos angle; y := sin angle |}.

(** The velocity built from a fresh unit vector, as at lines 71-74, 112-113
    and 197-198. *)
Definition randVelocity (rnd : R) : Vec2 :=
  let v := randUnitVector rnd in
  {| x := x v * SPEED; y := y v * SPEED |}.

(** The deadline expression of lines 83-85, 114-116 and 199-201; [now] is the
    time it starts from, [rnd] the value of [Math.random()]. *)
Definition nextDeadline (now rnd : R) : R :=
  now + CHANGE_INTERVAL_MIN + rnd * (CHANGE_INTERVAL_MAX - CHANGE_INTERVAL_MIN).

(** The [useState] initialisers of lines 67-85. *)
Definition initial (now rnd_dir rnd_iv : R) : State :=
  {| pos := {| x := 0; y := 0 |};
     vel := randVelocity rnd_dir;
     dragging := false;
     dragOffset := {| x := 0; y := 0 |};
     bounds := {| w := 0; h := 0; padding := 24 |};
     nextChangeAt := nextDeadline now rnd_iv |}.

(** [measure], lines 89-94.  [rect] is [None] when [containerRef.current] is
    null.  The same function is the [ResizeObserver] callback (line 96). *)
Definition measure (rect : option DOMRect) (s : State) : State :=
  match rect with
  | None => s
  | Some rect =>
      let s := setBounds {| w := width rect; h := height rect; padding := 24 |} s in
      setPos {| x := width rect / 2; y := height rect / 2 |} s
  end.

(** [step], lines 106-149.  [last] is the local of the animation effect (the
    time of the previous frame, or of the last time the effect was set up);
    [rnd_dir] and [rnd_iv] are the two [Math.random()] values a change of
    direction draws.  [s0] is the committed state the closure and the refs
    see; [s] is the state with the updates queued so far. *)
Definition step (t last rnd_dir rnd_iv : R) (s0 : State) : State :=
  let dt := (t - last) / 1000 in
  let s :=
    if negb (dragging s0) then
      if Rge_dec t (nextChangeAt s0) then
        let s := setVel (randVelocity rnd_dir) s0 in
        setNextChangeAt (nextDeadline t rnd_iv) s
      else s0
    else s0 in
  if negb (dragging s0) then
    let nx := x (pos s0) + x (vel s0) * dt in
    let ny := y (pos s0) + y (vel s0) * dt in
    let pad := padding (bounds s0) in
    let minX := pad in
    let maxX := Rmax pad (w (bounds s0) - pad) in
    let minY := pad in
    let maxY := Rmax pad (h (bounds s0) - pad) in
    let '(nx, s) :=
      if Rle_dec nx minX then
        (minX, updVel (fun v => {| x := Rabs (x v); y := y v |}) s)
      else if Rge_dec nx maxX then
        (maxX, updVel (fun v => {| x := - Rabs (x v); y := y v |}) s)
      else (nx, s) in
    let '(ny, s) :=
      if Rle_dec ny minY then
        (minY, updVel (fun v => {| x := x v; y := Rabs (y v) |}) s)
      else if Rge_dec ny maxY then
        (maxY, updVel (fun v => {| x := x v; y := - Rabs (y v) |}) s)
      else (ny, s) in
    setPos {| x := nx; y := ny |} s
  else s.

(** [onPointerDown], lines 161-172; [rect] is the bounding rectangle of the
    bug element. *)
Definition onPointerDown (e : PointerEvent) (rect : DOMRect) (s : State) : State :=
  let s := setDragging true s in
  let s := setDragOffset
             {| x := clientX e - (left rect + width rect / 2);
                y := clientY e - (top rect + height rect / 2) |} s in
  setVel {| x := 0; y := 0 |} s.

(** [onPointerMove], lines 174-183; [crect] is the bounding rectangle of the
    container. *)
Definition onPointerMove (e : PointerEvent) (crect : DOMRect) (s : State) : State :=
  if negb (dragging s) then s
  else
    let x' := clientX e - left crect - x (dragOffset s) in
    let y' := clientY e - top crect - y (dragOffset s) in
    let pad := padding (bounds s) in
    let nx := Rmax pad (Rmin x' (w (bounds s) - pad)) in
    let ny := Rmax pad (Rmin y' (h (bounds s) - pad)) in
    setPos {| x := nx; y := ny |} s.

(** [Math.hypot] on two arguments, as the exact square root; the code gets
    it rounded to binary64. *)
Definition hypot (a b : R) : R := sqrt (a * a + b * b).

(** [onPointerUp], lines 185-202; [now] is [performance.now()]. *)
Definition onPointerUp (now rnd_dir rnd_iv : R) (s0 : State) : State :=
  if negb (dragging s0) then s0
  else
    let s := setDragging false s0 in
    let cx := w (bounds s0) / 2 in
    let cy := h (bounds s0) / 2 in
    let dx := x (pos s0) - cx in
    let dy := y (pos s0) - cy in
    let dist := hypot dx dy in
    let s := if Rlt_dec dist 60 then setPos {| x := cx; y := cy |} s else s in
    let s := setVel (randVelocity rnd_dir) s in
    setNextChangeAt (nextDeadline now rnd_iv) s.


(** [Math.atan2(b, a)] on real arguments: the angle of the point [(a, b)] in
    (-PI, PI], and 0 at the origin, which is what ECMAScript returns for
    [Math.atan2(0, 0)].  The reals have one zero: where the code holds a
    negative zero in [b] with [a] negative, [Math.atan2] returns -PI and this
    function PI. *)
Definition atan2 (b a : R) : R :=
  if Rlt_dec 0 a then atan (b / a)
  else if Rlt_dec a 0 then
    if Rle_dec 0 b then atan (b / a) + PI else atan (b / a) - PI
  else if Rlt_dec 0 b then PI / 2
  else if Rlt_dec b 0 then - (PI / 2)
  else 0.

(** [angleDeg], line 215: recomputed from [vel] at every render. *)
Definition angleDeg (s : State) : R :=
  atan2 (y (vel s)) (x (vel s)) * (180 / PI) + 90.

(** ** The component as a transition system *)

Inductive Event : Type :=
| Measure (rect : option DOMRect)
| Frame (t last rnd_dir rnd_iv : R)
| PointerDown (e : PointerEvent) (rect : DOMRect)
| PointerMove (e : PointerEvent) (crect : DOMRect)
| PointerUp (now rnd_dir rnd_iv : R).

Definition handle (ev : Event) (s : State) : State :=
  match ev with
  | Measure rect => measure rect s
  | Frame t last rnd_dir rnd_iv => step t last rnd_dir rnd_iv s
  | PointerDown e rect => onPointerDown e rect s
  | PointerMove e crect => onPointerMove e crect s
  | PointerUp now rnd_dir rnd_iv => onPointerUp now rnd_dir rnd_iv s
  end.

(** The states the component can be in: the initial one, and whatever a
    handler makes of a reachable state. *)
Inductive reachable : State -> Prop :=
| reachable_initial : forall now rnd_dir rnd_iv,
    reachable (initial now rnd_dir rnd_iv)
| reachable_handle : forall ev s,
    reachable s -> reachable (handle ev s).

(** ** Vocabulary of the properties *)

(** The velocity a tick reflects: the committed one, or the fresh one when the
    tick is also a change of direction (first block of [step]). *)
Definition redirected (t rnd_dir : R) (s : State) : Vec2 :=
  if Rge_dec t (nextChangeAt s) then randVelocity rnd_dir else vel s.

(** The limits [step] computes on each axis. *)
Definition minX (s : State) : R := padding (bounds s).
Definition maxX (s : State) : R :=
  Rmax (padding (bounds s)) (w (bounds s) - padding (bounds s)).
Definition minY (s : State) : R := padding (bounds s).
Definition maxY (s : State) : R :=
  Rmax (padding (bounds s)) (h (bounds s) - padding (bounds s)).

(** The position [step] integrates before it looks at the limits. *)
Definition integratedX (t last : R) (s : State) : R :=
  x (pos s) + x (vel s) * ((t - last) / 1000).
Definition integratedY (t last : R) (s : State) : R :=
  y (pos s) + y (vel s) * ((t - last) / 1000).

(** Containment as the specification words it: each coordinate between the
    padding and the dimension minus the padding. *)
Definition contained (s : State) : Prop :=
  padding (bounds s) <= x (pos s) <= w (bounds s) - padding (bounds s) /\
  padding (bounds s) <= y (pos s) <= h (bounds s) - padding (bounds s).

(** Containment in the limits the code computes. *)
Definition within_limits (s : State) : Prop :=
  minX s <= x (pos s) <= maxX s /\ minY s <= y (pos s) <= maxY s.

(** A container that leaves room between the two paddings. *)
Definition roomy (b : Bounds) : Prop :=
  2 * padding b <= w b /\ 2 * padding b <= h b.

(** The events that write a position of their own: a frame outside a drag, a
    pointer move inside one, a measurement that finds the container. *)
Definition writes_position (ev : Event) (s : State) : bool :=
  match ev with
  | Measure rect => match rect with Some _ => true | None => false end
  | Frame _ _ _ _ => negb (dragging s)
  | PointerMove _ _ => dragging s
  | PointerDown _ _ => false
  | PointerUp _ _ _ => false
  end.

(** The container of the narrow-window examples: 20 by 300, measured right
    after mount; [Math.random()] gave 0, so the bug heads right at 170 px/s
    from the centre (10, 150). *)
Definition narrow : State :=
  measure (Some (mkDOMRect 0 0 20 300)) (initial 0 0 0).

(** The scenario of the reflection example: 400 by 300, padding 24, the bug
    at (390, 150) moving right at 170 px/s, next change of direction at
    [deadline]. *)
Definition near_right_edge (deadline : R) : State :=
  {| pos := {| x := 390; y := 150 |};
     vel := {| x := 170; y := 0 |};
     dragging := false;
     dragOffset := {| x := 0; y := 0 |};
     bounds := {| w := 400; h := 300; padding := 24 |};
     nextChangeAt := deadline |}.

(** Clamping as the drag handler writes it: [Math.max(lo, Math.min(v, hi))]. *)
Definition clamp (v lo hi : R) : R := Rmax lo (Rmin v hi).

(** A 400 by 300 container, measured right after mount. *)
Definition mounted : State :=
  measure (Some (mkDOMRect 0 0 400 300)) (initial 0 0 0).


(** The component mounted with [Math.random()] = 1/4: the angle is a quarter
    turn and the bug heads straight down the screen. *)
Definition heading_down : State := initial 0 (1 / 4) 0.

(** A pointer press at (0, 0) on a bug element whose rectangle is centred
    there. *)
Definition press_at_origin : Event :=
  PointerDown (mkPointerEvent 0 0) (mkDOMRect (-36) (-36) 72 72).

(** A container of size zero, measured right after mount. *)
Definition collapsed : State :=
  measure (Some (mkDOMRect 0 0 0 0)) (initial 0 0 0).

(** The event loop: the browser hands the events to the handlers one after
    the other. *)
Fixpoint run (evs : list Event) (s : State) : State :=
  match evs with
  | nil => s
  | ev :: evs => run evs (handle ev s)
  end.

(** The events a handler returns from at once in the mode given by the drag
    flag [d]: frames during a drag (both tests of [step] fail), pointer moves
    and releases outside one (lines 175 and 186), measurements that find no
    container (line 91). *)
Definition ignored (d : bool) (ev : Event) : bool :=
  match ev with
  | Measure rect => match rect with Some _ => false | None => true end
  | Frame _ _ _ _ => d
  | PointerDown _ _ => false
  | PointerMove _ _ => negb d
  | PointerUp _ _ _ => negb d
  end.

(** Measurements that report at least 48 px each way, twice the padding
    [measure] stores. *)
Definition well_measured (ev : Event) : Prop :=
  match ev with
  | Measure (Some rect) => 48 <= width rect /\ 48 <= height rect
  | _ => True
  end.

(** What a run keeps once a measurement has found room: padding 24, room
    between the paddings, and the position contained. *)
Definition settled (s : State) : Prop :=
  padding (bounds s) = 24 /\ roomy (bounds s) /\ contained s.




(** A state in which the direction has just been drawn afresh at time [t1]:
    by a frame outside a drag that had reached the deadline, or by a release
    during a drag. *)
Definition rerandomised_at (t1 : R) (s : State) : Prop :=
  (exists last rnd_dir rnd_iv s0,
     0 <= rnd_iv /\ dragging s0 = false /\ t1 >= nextChangeAt s0 /\
     s = step t1 last rnd_dir rnd_iv s0) \/
  (exists rnd_dir rnd_iv s0,
     0 <= rnd_iv /\ dragging s0 = true /\
     s = onPointerUp t1 rnd_dir rnd_iv s0).

(** Events as they can follow time [t1]: [Math.random()] is not negative,
    and a release does not carry a time before [t1]. *)
Definition not_before (t1 : R) (ev : Event) : Prop :=
  match ev with
  | Frame _ _ _ rnd_iv => 0 <= rnd_iv
  | PointerUp now _ rnd_iv => t1 <= now /\ 0 <= rnd_iv
  | _ => True
  end.

(** ** The velocity on binary64 *)











(** ** Proof tools *)

(** Case analysis on the innermost test of the goal. *)
Ltac break_if :=
  match goal with
  | |- context [if ?c then _ else _] =>
      match c with
      | context [if _ then _ else _] => fail 1
      | _ => destruct c
      end
  end.

Ltac break_max :=
  unfold Rmax, Rmin in *; repeat break_if.

(** ** The frame callback, field by field *)

Lemma step_dragging t last rnd_dir rnd_iv s :
  dragging s = true -> step t last rnd_dir rnd_iv s = s.
Proof.
  intros Hd. unfold step. rewrite Hd. reflexivity.
Qed.

Lemma step_pos_x t last rnd_dir rnd_iv s :
  dragging s = false ->
  x (pos (step t last rnd_dir rnd_iv s)) =
    if Rle_dec (integratedX t last s) (minX s) then minX s
    else if Rge_dec (integratedX t last s) (maxX s) then maxX s
    else integratedX t last s.
Proof.
  intros Hd. unfold step, integratedX, minX, maxX. rewrite Hd. cbn [negb].
  repeat break_if; reflexivity.
Qed.

Lemma step_pos_y t last rnd_dir rnd_iv s :
  dragging s = false ->
  y (pos (step t last rnd_dir rnd_iv s)) =
    if Rle_dec (integratedY t last s) (minY s) then minY s
    else if Rge_dec (integratedY t last s) (maxY s) then maxY s
    else integratedY t last s.
Proof.
  intros Hd. unfold step, integratedY, minY, maxY. rewrite Hd. cbn [negb].
  repeat break_if; reflexivity.
Qed.

Lemma step_vel_x t last rnd_dir rnd_iv s :
  dragging s = false ->
  x (vel (step t last rnd_dir rnd_iv s)) =
    if Rle_dec (integratedX t last s) (minX s)
    then Rabs (x (redirected t rnd_dir s))
    else if Rge_dec (integratedX t last s) (maxX s)
    then - Rabs (x (redirected t rnd_dir s))
    else x (redirected t rnd_dir s).
Proof.
  intros Hd. unfold step, integratedX, minX, maxX, redirected.
  rewrite Hd. cbn [negb].
  repeat break_if; reflexivity.
Qed.

Lemma step_vel_y t last rnd_dir rnd_iv s :
  dragging s = false ->
  y (vel (step t last rnd_dir rnd_iv s)) =
    if Rle_dec (integratedY t last s) (minY s)
    then Rabs (y (redirected t rnd_dir s))
    else if Rge_dec (integratedY t last s) (maxY s)
    then - Rabs (y (redirected t rnd_dir s))
    else y (redirected t rnd_dir s).
Proof.
  intros Hd. unfold step, integratedY, minY, maxY, redirected.
  rewrite Hd. cbn [negb].
  repeat break_if; reflexivity.
Qed.

Lemma step_bounds t last rnd_dir rnd_iv s :
  bounds (step t last rnd_dir rnd_iv s) = bounds s.
Proof.
  unfold step. destruct (dragging s); cbn [negb]; [reflexivity|].
  repeat break_if; reflexivity.
Qed.

Lemma step_flag t last rnd_dir rnd_iv s :
  dragging (step t last rnd_dir rnd_iv s) = dragging s.
Proof.
  unfold step. destruct (dragging s) eqn:Hd; cbn [negb]; [assumption|].
  repeat break_if; cbn; assumption.
Qed.

Lemma step_deadline t last rnd_dir rnd_iv s :
  dragging s = false ->
  nextChangeAt (step t last rnd_dir rnd_iv s) =
    if Rge_dec t (nextChangeAt s) then nextDeadline t rnd_iv
    else nextChangeAt s.
Proof.
  intros Hd. unfold step. rewrite Hd. cbn [negb].
  repeat break_if; reflexivity.
Qed.

(** ** Concrete states *)

Lemma randVelocity_0 : randVelocity 0 = {| x := 170; y := 0 |}.
Proof.
  unfold randVelocity, randUnitVector, SPEED. cbn.
  replace (0 * PI * 2) with 0 by ring.
  rewrite cos_0, sin_0. f_equal; ring.
Qed.

Lemma narrow_fields :
  pos narrow = {| x := 10; y := 150 |} /\
  vel narrow = {| x := 170; y := 0 |} /\
  dragging narrow = false /\
  bounds narrow = {| w := 20; h := 300; padding := 24 |}.
Proof.
  unfold narrow. cbn. rewrite randVelocity_0.
  repeat split. f_equal; lra.
Qed.

(** ** Containment *)

Lemma minX_le_maxX s : minX s <= maxX s.
Proof. unfold minX, maxX. apply Rmax_l. Qed.

Lemma minY_le_maxY s : minY s <= maxY s.
Proof. unfold minY, maxY. apply Rmax_l. Qed.

Lemma roomy_maxX s : roomy (bounds s) -> maxX s = w (bounds s) - padding (bounds s).
Proof.
  intros [Hw _]. unfold maxX. apply Rmax_right. lra.
Qed.

Lemma roomy_maxY s : roomy (bounds s) -> maxY s = h (bounds s) - padding (bounds s).
Proof.
  intros [_ Hh]. unfold maxY. apply Rmax_right. lra.
Qed.

Lemma within_limits_contained s :
  roomy (bounds s) -> within_limits s -> contained s.
Proof.
  intros Hr [Hx Hy]. unfold contained.
  rewrite <- (roomy_maxX s Hr), <- (roomy_maxY s Hr). exact (conj Hx Hy).
Qed.

(** A frame outside a drag leaves the position inside the limits the code
    computes, wherever it started and whatever the elapsed time. *)
Lemma step_within_limits t last rnd_dir rnd_iv s :
  dragging s = false -> within_limits (step t last rnd_dir rnd_iv s).
Proof.
  intros Hd. unfold within_limits.
  assert (Hb := step_bounds t last rnd_dir rnd_iv s).
  unfold minX, maxX, minY, maxY in *. rewrite Hb.
  rewrite (step_pos_x _ _ _ _ _ Hd), (step_pos_y _ _ _ _ _ Hd).
  assert (Hx := minX_le_maxX s). assert (Hy := minY_le_maxY s).
  unfold minX, maxX, minY, maxY in *.
  repeat break_if; lra.
Qed.

(** A pointer move inside a drag does the same. *)
Lemma onPointerMove_within_limits e crect s :
  dragging s = true -> within_limits (onPointerMove e crect s).
Proof.
  intros Hd. unfold within_limits, onPointerMove, minX, maxX, minY, maxY.
  rewrite Hd. cbn.
  break_max; lra.
Qed.

Lemma measure_contained rect s :
  roomy (bounds (measure (Some rect) s)) -> contained (measure (Some rect) s).
Proof.
  unfold roomy, contained. cbn. lra.
Qed.

Lemma onPointerUp_contained now rnd_dir rnd_iv s :
  roomy (bounds s) -> contained s -> contained (onPointerUp now rnd_dir rnd_iv s).
Proof.
  intros Hr Hc. unfold onPointerUp.
  destruct (dragging s); cbn [negb]; [|assumption].
  destruct (Rlt_dec _ 60); [|exact Hc].
  unfold roomy in Hr. unfold contained in *. cbn. lra.
Qed.

Lemma onPointerUp_bounds now rnd_dir rnd_iv s :
  bounds (onPointerUp now rnd_dir rnd_iv s) = bounds s.
Proof.
  unfold onPointerUp. destruct (dragging s); cbn [negb]; [|reflexivity].
  break_if; reflexivity.
Qed.

Lemma onPointerMove_bounds e crect s :
  bounds (onPointerMove e crect s) = bounds s.
Proof.
  unfold onPointerMove. destruct (dragging s); reflexivity.
Qed.

(** C1 (as amended).  In a container at least two paddings wide and high,
    every frame outside a drag, every pointer move inside a drag and every
    measurement leaves [padding <= x <= w - padding] and
    [padding <= y <= h - padding], wherever the position was before; and
    every event whatever keeps the containment when it held before. *)
Theorem containment_kept ev s :
  roomy (bounds (handle ev s)) ->
  contained s \/ writes_position ev s = true ->
  contained (handle ev s).
Proof.
  intros Hr Hpre. destruct ev as [rect|t last rd ri|e rect|e crect|now rd ri]; cbn [handle] in *.
  - destruct rect as [rect|].
    + apply measure_contained; assumption.
    + destruct Hpre as [Hc|Hw]; [exact Hc|discriminate].
  - destruct (dragging s) eqn:Hd.
    + rewrite (step_dragging _ _ _ _ _ Hd) in *.
      destruct Hpre as [Hc|Hw]; [exact Hc|].
      cbn in Hw. rewrite Hd in Hw. discriminate.
    + apply within_limits_contained; [assumption|].
      apply step_within_limits; assumption.
  - destruct Hpre as [Hc|Hw]; [exact Hc|discriminate].
  - destruct (dragging s) eqn:Hd.
    + apply within_limits_contained; [assumption|].
      apply onPointerMove_within_limits; assumption.
    + destruct Hpre as [Hc|Hw]; [|cbn in Hw; congruence].
      unfold onPointerMove. rewrite Hd. exact Hc.
  - destruct Hpre as [Hc|Hw]; [|discriminate].
    rewrite onPointerUp_bounds in Hr.
    apply onPointerUp_contained; assumption.
Qed.

(** An instance: the first frame in a 400 by 300 container. *)
Lemma containment_kept_witness :
  roomy (bounds (handle (Frame 16 0 0 0) mounted)) /\
  writes_position (Frame 16 0 0 0) mounted = true /\
  contained (handle (Frame 16 0 0 0) mounted).
Proof.
  assert (Hr : roomy (bounds (handle (Frame 16 0 0 0) mounted))).
  { cbn [handle]. rewrite step_bounds. unfold roomy. cbn. lra. }
  split; [exact Hr|]. split; [reflexivity|].
  apply containment_kept; [exact Hr|].
  right. reflexivity.
Defined.

(** C1 as stated fails in a container narrower than two paddings: after a
    frame in the 20 by 300 container x is 24, and [w - padding] is -4. *)
Lemma containment_narrow_counterexample :
  dragging narrow = false /\
  x (pos (step 16 0 0 0 narrow)) = 24 /\
  w (bounds (step 16 0 0 0 narrow)) - padding (bounds (step 16 0 0 0 narrow)) = -4 /\
  ~ contained (step 16 0 0 0 narrow).
Proof.
  assert (Hd : dragging narrow = false) by reflexivity.
  assert (Hx : x (pos (step 16 0 0 0 narrow)) = 24).
  { rewrite (step_pos_x _ _ _ _ _ Hd).
    destruct narrow_fields as (Hp & Hv & _ & Hb).
    unfold integratedX, minX, maxX. rewrite Hp, Hv, Hb. cbn.
    break_max; lra. }
  assert (Hw : w (bounds (step 16 0 0 0 narrow))
               - padding (bounds (step 16 0 0 0 narrow)) = -4).
  { rewrite step_bounds. cbn. lra. }
  repeat split; try assumption.
  unfold contained. rewrite Hx, Hw. lra.
Qed.

(** ** Reflection *)

Lemma redirected_keeps t rnd_dir s :
  t < nextChangeAt s -> redirected t rnd_dir s = vel s.
Proof.
  intros Ht. unfold redirected. break_if; [lra|reflexivity].
Qed.

(** Starting inside the limits, with time running forward, the integrated
    position can only leave through the limit the velocity points to. *)
Lemma leaves_low_moving_down (p v d lo : R) :
  lo <= p -> 0 <= d -> p + v * d < lo -> v < 0.
Proof. intros Hp Hd Hn. nra. Qed.

Lemma leaves_high_moving_up (p v d hi : R) :
  p <= hi -> 0 <= d -> hi < p + v * d -> 0 < v.
Proof. intros Hp Hd Hn. nra. Qed.

Lemma within_limits_heading t last s :
  within_limits s -> last <= t ->
  (integratedX t last s < minX s -> x (vel s) < 0) /\
  (maxX s < integratedX t last s -> 0 < x (vel s)) /\
  (integratedY t last s < minY s -> y (vel s) < 0) /\
  (maxY s < integratedY t last s -> 0 < y (vel s)).
Proof.
  intros [[Hx1 Hx2] [Hy1 Hy2]] Ht.
  assert (Hd : 0 <= (t - last) / 1000) by lra.
  unfold integratedX, integratedY.
  repeat split; intros Hn.
  - exact (leaves_low_moving_down _ _ _ _ Hx1 Hd Hn).
  - exact (leaves_high_moving_up _ _ _ _ Hx2 Hd Hn).
  - exact (leaves_low_moving_down _ _ _ _ Hy1 Hd Hn).
  - exact (leaves_high_moving_up _ _ _ _ Hy2 Hd Hn).
Qed.

Lemma reflect_x_low t last rnd_dir rnd_iv s :
  dragging s = false ->
  integratedX t last s < minX s -> x (vel s) < 0 ->
  x (pos (step t last rnd_dir rnd_iv s)) = minX s /\
  0 <= x (vel (step t last rnd_dir rnd_iv s)) /\
  (t < nextChangeAt s -> x (vel (step t last rnd_dir rnd_iv s)) = - x (vel s)).
Proof.
  intros Hd Hn Hv.
  rewrite (step_pos_x _ _ _ _ _ Hd), (step_vel_x _ _ _ _ _ Hd).
  destruct (Rle_dec (integratedX t last s) (minX s)) as [_|Hc]; [|lra].
  repeat split.
  - apply Rabs_pos.
  - intros Ht. rewrite (redirected_keeps _ _ _ Ht). apply Rabs_left. exact Hv.
Qed.

Lemma reflect_x_high t last rnd_dir rnd_iv s :
  dragging s = false ->
  maxX s < integratedX t last s -> 0 < x (vel s) ->
  x (pos (step t last rnd_dir rnd_iv s)) = maxX s /\
  x (vel (step t last rnd_dir rnd_iv s)) <= 0 /\
  (t < nextChangeAt s -> x (vel (step t last rnd_dir rnd_iv s)) = - x (vel s)).
Proof.
  intros Hd Hn Hv.
  rewrite (step_pos_x _ _ _ _ _ Hd), (step_vel_x _ _ _ _ _ Hd).
  assert (Hm := minX_le_maxX s).
  destruct (Rle_dec (integratedX t last s) (minX s)) as [Hc|_]; [lra|].
  destruct (Rge_dec (integratedX t last s) (maxX s)) as [_|Hc]; [|lra].
  repeat split.
  - assert (Ha := Rabs_pos (x (redirected t rnd_dir s))). lra.
  - intros Ht. rewrite (redirected_keeps _ _ _ Ht).
    rewrite Rabs_right; [reflexivity|lra].
Qed.

Lemma reflect_y_low t last rnd_dir rnd_iv s :
  dragging s = false ->
  integratedY t last s < minY s -> y (vel s) < 0 ->
  y (pos (step t last rnd_dir rnd_iv s)) = minY s /\
  0 <= y (vel (step t last rnd_dir rnd_iv s)) /\
  (t < nextChangeAt s -> y (vel (step t last rnd_dir rnd_iv s)) = - y (vel s)).
Proof.
  intros Hd Hn Hv.
  rewrite (step_pos_y _ _ _ _ _ Hd), (step_vel_y _ _ _ _ _ Hd).
  destruct (Rle_dec (integratedY t last s) (minY s)) as [_|Hc]; [|lra].
  repeat split.
  - apply Rabs_pos.
  - intros Ht. rewrite (redirected_keeps _ _ _ Ht). apply Rabs_left. exact Hv.
Qed.

Lemma reflect_y_high t last rnd_dir rnd_iv s :
  dragging s = false ->
  maxY s < integratedY t last s -> 0 < y (vel s) ->
  y (pos (step t last rnd_dir rnd_iv s)) = maxY s /\
  y (vel (step t last rnd_dir rnd_iv s)) <= 0 /\
  (t < nextChangeAt s -> y (vel (step t last rnd_dir rnd_iv s)) = - y (vel s)).
Proof.
  intros Hd Hn Hv.
  rewrite (step_pos_y _ _ _ _ _ Hd), (step_vel_y _ _ _ _ _ Hd).
  assert (Hm := minY_le_maxY s).
  destruct (Rle_dec (integratedY t last s) (minY s)) as [Hc|_]; [lra|].
  destruct (Rge_dec (integratedY t last s) (maxY s)) as [_|Hc]; [|lra].
  repeat split.
  - assert (Ha := Rabs_pos (y (redirected t rnd_dir s))). lra.
  - intros Ht. rewrite (redirected_keeps _ _ _ Ht).
    rewrite Rabs_right; [reflexivity|lra].
Qed.

(** The sign is strict as soon as the reflected component is not zero. *)
Lemma Rabs_pos_nonzero (c : R) : c <> 0 -> 0 < Rabs c.
Proof. intros Hc. apply Rabs_pos_lt. exact Hc. Qed.

(** C2 (as amended).  In a frame outside a drag, on each axis: when the
    integrated position is strictly beyond a limit the code computes
    ([padding] below, [max padding (dimension - padding)] above) and the
    velocity before the frame points to that limit, the position after the
    frame is that limit exactly, and the velocity component after the frame
    is [|c|] at the lower limit and [-|c|] at the upper one, [c] being the
    component the frame reflects (the fresh one if the frame also changes
    direction).  Its sign is therefore opposite to the one before the frame
    unless [c] is zero, and it is the exact negation of the component before
    the frame when the frame does not change direction.  The velocity does
    point to the limit whenever the position before the frame is inside the
    limits and time runs forward (last conjunct). *)
Theorem reflection_law t last rnd_dir rnd_iv s :
  dragging s = false ->
  let s' := step t last rnd_dir rnd_iv s in
  let c := redirected t rnd_dir s in
  (integratedX t last s < minX s -> x (vel s) < 0 ->
     x (pos s') = minX s /\ x (vel s') = Rabs (x c) /\
     0 <= x (vel s') /\ (x c <> 0 -> 0 < x (vel s')) /\
     (t < nextChangeAt s -> x (vel s') = - x (vel s))) /\
  (maxX s < integratedX t last s -> 0 < x (vel s) ->
     x (pos s') = maxX s /\ x (vel s') = - Rabs (x c) /\
     x (vel s') <= 0 /\ (x c <> 0 -> x (vel s') < 0) /\
     (t < nextChangeAt s -> x (vel s') = - x (vel s))) /\
  (integratedY t last s < minY s -> y (vel s) < 0 ->
     y (pos s') = minY s /\ y (vel s') = Rabs (y c) /\
     0 <= y (vel s') /\ (y c <> 0 -> 0 < y (vel s')) /\
     (t < nextChangeAt s -> y (vel s') = - y (vel s))) /\
  (maxY s < integratedY t last s -> 0 < y (vel s) ->
     y (pos s') = maxY s /\ y (vel s') = - Rabs (y c) /\
     y (vel s') <= 0 /\ (y c <> 0 -> y (vel s') < 0) /\
     (t < nextChangeAt s -> y (vel s') = - y (vel s))) /\
  (within_limits s -> last <= t ->
     (integratedX t last s < minX s -> x (vel s) < 0) /\
     (maxX s < integratedX t last s -> 0 < x (vel s)) /\
     (integratedY t last s < minY s -> y (vel s) < 0) /\
     (maxY s < integratedY t last s -> 0 < y (vel s))).
Proof.
  intros Hd s' c. subst s' c.
  split; [|split; [|split; [|split]]].
  - intros Hn Hv.
    destruct (reflect_x_low t last rnd_dir rnd_iv s Hd Hn Hv) as (Hp & H0 & Hk).
    assert (He : x (vel (step t last rnd_dir rnd_iv s)) = Rabs (x (redirected t rnd_dir s))).
    { rewrite (step_vel_x _ _ _ _ _ Hd). break_if; [reflexivity|lra]. }
    repeat split; try assumption.
    intros Hc. rewrite He. apply Rabs_pos_nonzero. exact Hc.
  - intros Hn Hv.
    destruct (reflect_x_high t last rnd_dir rnd_iv s Hd Hn Hv) as (Hp & H0 & Hk).
    assert (He : x (vel (step t last rnd_dir rnd_iv s)) = - Rabs (x (redirected t rnd_dir s))).
    { rewrite (step_vel_x _ _ _ _ _ Hd). assert (Hm := minX_le_maxX s).
      repeat break_if; try reflexivity; lra. }
    repeat split; try assumption.
    intros Hc. rewrite He. apply Rabs_pos_nonzero in Hc. lra.
  - intros Hn Hv.
    destruct (reflect_y_low t last rnd_dir rnd_iv s Hd Hn Hv) as (Hp & H0 & Hk).
    assert (He : y (vel (step t last rnd_dir rnd_iv s)) = Rabs (y (redirected t rnd_dir s))).
    { rewrite (step_vel_y _ _ _ _ _ Hd). break_if; [reflexivity|lra]. }
    repeat split; try assumption.
    intros Hc. rewrite He. apply Rabs_pos_nonzero. exact Hc.
  - intros Hn Hv.
    destruct (reflect_y_high t last rnd_dir rnd_iv s Hd Hn Hv) as (Hp & H0 & Hk).
    assert (He : y (vel (step t last rnd_dir rnd_iv s)) = - Rabs (y (redirected t rnd_dir s))).
    { rewrite (step_vel_y _ _ _ _ _ Hd). assert (Hm := minY_le_maxY s).
      repeat break_if; try reflexivity; lra. }
    repeat split; try assumption.
    intros Hc. rewrite He. apply Rabs_pos_nonzero in Hc. lra.
  - intros Hw Ht. exact (within_limits_heading t last s Hw Ht).
Qed.

Lemma near_right_edge_limits deadline :
  minX (near_right_edge deadline) = 24 /\ maxX (near_right_edge deadline) = 376 /\
  minY (near_right_edge deadline) = 24 /\ maxY (near_right_edge deadline) = 276.
Proof.
  unfold minX, maxX, minY, maxY. cbn.
  repeat split; try reflexivity; break_max; lra.
Qed.

(** An instance: the bug 14 px from the right limit, 100 ms, no change of
    direction due. *)
Lemma reflection_law_witness :
  dragging (near_right_edge 1000) = false /\
  maxX (near_right_edge 1000) < integratedX 100 0 (near_right_edge 1000) /\
  0 < x (vel (near_right_edge 1000)) /\
  x (pos (step 100 0 0 0 (near_right_edge 1000))) = maxX (near_right_edge 1000) /\
  x (vel (step 100 0 0 0 (near_right_edge 1000))) = - x (vel (near_right_edge 1000)).
Proof.
  assert (Hn : maxX (near_right_edge 1000) < integratedX 100 0 (near_right_edge 1000)).
  { destruct (near_right_edge_limits 1000) as (_ & -> & _).
    unfold integratedX. cbn. lra. }
  assert (Hv : 0 < x (vel (near_right_edge 1000))) by (cbn; lra).
  destruct (reflection_law 100 0 0 0 (near_right_edge 1000) eq_refl)
    as (_ & Hhigh & _).
  destruct (Hhigh Hn Hv) as (Hp & _ & _ & _ & Hk).
  repeat split; try assumption.
  apply Hk. cbn. lra.
Defined.

(** C2 as stated fails when the velocity points away from the limit the
    integrated position is beyond.  In the 20 by 300 container the bug starts
    at x = 10, left of the lower limit 24, heading right at 170 px/s; 16 ms
    later the integrated x is 12.72, still beyond the limit; the frame puts x
    at 24 and leaves the x velocity at 170. *)
Lemma reflection_narrow_counterexample :
  dragging narrow = false /\
  integratedX 16 0 narrow < padding (bounds narrow) /\
  x (vel narrow) = 170 /\
  x (vel (step 16 0 0 0 narrow)) = 170.
Proof.
  destruct narrow_fields as (Hp & Hv & Hd & Hb).
  assert (Hn : integratedX 16 0 narrow < padding (bounds narrow)).
  { unfold integratedX. rewrite Hp, Hv, Hb. cbn. lra. }
  repeat split; try assumption.
  - rewrite Hv. reflexivity.
  - rewrite (step_vel_x _ _ _ _ _ Hd).
    destruct (Rle_dec (integratedX 16 0 narrow) (minX narrow)) as [_|Hc].
    + unfold redirected. break_if.
      * rewrite randVelocity_0. cbn. apply Rabs_right. lra.
      * rewrite Hv. cbn. apply Rabs_right. lra.
    + unfold minX in Hc. lra.
Qed.

(** ** The reflection scenario *)

Lemma vec2_eq (v : Vec2) (a b : R) :
  x v = a -> y v = b -> v = {| x := a; y := b |}.
Proof. destruct v; cbn; intros -> ->; reflexivity. Qed.

(** C3 (as amended).  Container 400 by 300, padding 24, position (390, 150),
    velocity (170, 0), not dragging: a frame 100 ms after the last one
    integrates x to 407, beyond the maximum 376, and ends with position
    (376, 150).  When no change of direction is due in that frame the
    velocity ends as (-170, 0); when one is due the frame reflects the fresh
    velocity instead, and the velocity ends as (-|c.x|, c.y), [c] being 170
    times the cosine and sine of the fresh angle. *)
Theorem scenario_right_edge t last rnd_dir rnd_iv s :
  bounds s = {| w := 400; h := 300; padding := 24 |} ->
  pos s = {| x := 390; y := 150 |} ->
  vel s = {| x := 170; y := 0 |} ->
  dragging s = false ->
  t - last = 100 ->
  integratedX t last s = 407 /\
  maxX s = 376 /\
  pos (step t last rnd_dir rnd_iv s) = {| x := 376; y := 150 |} /\
  (t < nextChangeAt s ->
     vel (step t last rnd_dir rnd_iv s) = {| x := -170; y := 0 |}) /\
  (t >= nextChangeAt s ->
     vel (step t last rnd_dir rnd_iv s) =
       {| x := - Rabs (cos (rnd_dir * PI * 2) * 170);
          y := sin (rnd_dir * PI * 2) * 170 |}).
Proof.
  intros Hb Hp Hv Hd Hdt.
  assert (Hix : integratedX t last s = 407).
  { unfold integratedX. rewrite Hp, Hv, Hdt. cbn. lra. }
  assert (Hiy : integratedY t last s = 150).
  { unfold integratedY. rewrite Hp, Hv, Hdt. cbn. lra. }
  assert (HmX : maxX s = 376).
  { unfold maxX. rewrite Hb. cbn. break_max; lra. }
  assert (HmY : maxY s = 276).
  { unfold maxY. rewrite Hb. cbn. break_max; lra. }
  assert (Hlo : minX s = 24 /\ minY s = 24).
  { unfold minX, minY. rewrite Hb. cbn. split; reflexivity. }
  destruct Hlo as [HlX HlY].
  split; [exact Hix|]. split; [exact HmX|].
  split; [|split].
  - apply vec2_eq.
    + rewrite (step_pos_x _ _ _ _ _ Hd), Hix, HmX, HlX.
      repeat break_if; lra.
    + rewrite (step_pos_y _ _ _ _ _ Hd), Hiy, HmY, HlY.
      repeat break_if; lra.
  - intros Hdue. apply vec2_eq.
    + rewrite (step_vel_x _ _ _ _ _ Hd), Hix, HmX, HlX.
      rewrite (redirected_keeps _ _ _ Hdue), Hv. cbn.
      repeat break_if; try lra.
      rewrite Rabs_right; lra.
    + rewrite (step_vel_y _ _ _ _ _ Hd), Hiy, HmY, HlY.
      rewrite (redirected_keeps _ _ _ Hdue), Hv. cbn.
      repeat break_if; lra.
  - intros Hdue.
    assert (Hr : redirected t rnd_dir s = randVelocity rnd_dir).
    { unfold redirected. destruct (Rge_dec t (nextChangeAt s)); [reflexivity|contradiction]. }
    apply vec2_eq.
    + rewrite (step_vel_x _ _ _ _ _ Hd), Hix, HmX, HlX, Hr.
      destruct (Rle_dec 407 24) as [Hc|_]; [lra|].
      destruct (Rge_dec 407 376) as [_|Hc]; [|lra].
      reflexivity.
    + rewrite (step_vel_y _ _ _ _ _ Hd), Hiy, HmY, HlY, Hr.
      destruct (Rle_dec 150 24) as [Hc|_]; [lra|].
      destruct (Rge_dec 150 276) as [Hc|_]; [lra|].
      reflexivity.
Qed.

(** The scenario with the clock at 100 ms and the deadline at 1000 ms. *)
Lemma scenario_right_edge_witness :
  pos (step 100 0 0 0 (near_right_edge 1000)) = {| x := 376; y := 150 |} /\
  vel (step 100 0 0 0 (near_right_edge 1000)) = {| x := -170; y := 0 |}.
Proof.
  assert (Hdt : 100 - 0 = 100) by lra.
  assert (Hdue : 100 < nextChangeAt (near_right_edge 1000)) by (cbn; lra).
  destruct (scenario_right_edge 100 0 0 0 (near_right_edge 1000)
              eq_refl eq_refl eq_refl eq_refl Hdt) as (_ & _ & Hp & Hv & _).
  exact (conj Hp (Hv Hdue)).
Defined.

(** C3 as stated fails when the frame of the scenario is also the one in
    which the deadline is reached.  With the deadline at 50 ms and
    [Math.random()] = 1/4 the frame at 100 ms draws a velocity pointing
    down the screen, whose x component is next to zero, and reflects that
    one: x ends at 376, but the x velocity ends between -1 and 0, not at
    -170. *)
Lemma scenario_redirect_counterexample :
  bounds (near_right_edge 50) = {| w := 400; h := 300; padding := 24 |} /\
  pos (near_right_edge 50) = {| x := 390; y := 150 |} /\
  vel (near_right_edge 50) = {| x := 170; y := 0 |} /\
  100 >= nextChangeAt (near_right_edge 50) /\
  x (pos (step 100 0 (1 / 4) 0 (near_right_edge 50))) = 376 /\
  -1 < x (vel (step 100 0 (1 / 4) 0 (near_right_edge 50))) <= 0 /\
  x (vel (step 100 0 (1 / 4) 0 (near_right_edge 50))) <> -170.
Proof.
  assert (Hd : dragging (near_right_edge 50) = false) by reflexivity.
  destruct (near_right_edge_limits 50) as (HlX & HmX & _).
  assert (Hix : integratedX 100 0 (near_right_edge 50) = 407).
  { unfold integratedX. cbn. lra. }
  assert (Hdue : 100 >= nextChangeAt (near_right_edge 50)) by (cbn; lra).
  assert (Hvx : x (vel (step 100 0 (1 / 4) 0 (near_right_edge 50))) = 0).
  { rewrite (step_vel_x _ _ _ _ _ Hd), Hix, HmX, HlX.
    unfold redirected.
    destruct (Rge_dec 100 (nextChangeAt (near_right_edge 50))); [|contradiction].
    destruct (Rle_dec 407 24) as [Hc|_]; [lra|].
    destruct (Rge_dec 407 376) as [_|Hc]; [|lra].
    unfold randVelocity, randUnitVector. cbn [x y].
    replace (1 / 4 * PI * 2) with (PI / 2) by lra.
    rewrite cos_PI2, Rmult_0_l, Rabs_R0. lra. }
  repeat split; try reflexivity; try exact Hdue.
  - rewrite (step_pos_x _ _ _ _ _ Hd), Hix, HmX, HlX.
    repeat break_if; lra.
  - rewrite Hvx. lra.
  - rewrite Hvx. lra.
  - rewrite Hvx. lra.
Qed.

(** ** Velocity *)


Lemma onPointerDown_fields e rect s :
  dragging (onPointerDown e rect s) = true /\
  vel (onPointerDown e rect s) = {| x := 0; y := 0 |} /\
  pos (onPointerDown e rect s) = pos s /\
  bounds (onPointerDown e rect s) = bounds s /\
  dragOffset (onPointerDown e rect s) =
    {| x := clientX e - (left rect + width rect / 2);
       y := clientY e - (top rect + height rect / 2) |}.
Proof. repeat split. Qed.

Lemma onPointerUp_release now rnd_dir rnd_iv s :
  dragging s = true ->
  dragging (onPointerUp now rnd_dir rnd_iv s) = false /\
  vel (onPointerUp now rnd_dir rnd_iv s) = randVelocity rnd_dir /\
  nextChangeAt (onPointerUp now rnd_dir rnd_iv s) = nextDeadline now rnd_iv.
Proof.
  intros Hd. unfold onPointerUp. rewrite Hd. cbn [negb].
  break_if; repeat split.
Qed.








(** ** Measuring *)

(** C5 (as amended).  [measure], which is also the resize callback, writes
    the measured width and height (with padding 24) into the bounds and puts
    the position at the centre of the measured rectangle; velocity, drag
    flag, grab offset and deadline are untouched.  When the container
    reference is null it changes nothing. *)
Theorem measure_recentres rect s :
  bounds (measure (Some rect) s) =
    {| w := width rect; h := height rect; padding := 24 |} /\
  pos (measure (Some rect) s) = {| x := width rect / 2; y := height rect / 2 |} /\
  vel (measure (Some rect) s) = vel s /\
  dragging (measure (Some rect) s) = dragging s /\
  dragOffset (measure (Some rect) s) = dragOffset s /\
  nextChangeAt (measure (Some rect) s) = nextChangeAt s /\
  measure None s = s.
Proof. repeat split. Qed.

(** C5 as stated fails: the bug sits at (200, 150) in a 400 by 300 container;
    the container grows to 800 by 600 and the resize callback moves the bug
    to (400, 300). *)
Lemma resize_moves_counterexample :
  x (pos mounted) = 200 /\ y (pos mounted) = 150 /\
  x (pos (measure (Some (mkDOMRect 0 0 800 600)) mounted)) = 400 /\
  y (pos (measure (Some (mkDOMRect 0 0 800 600)) mounted)) = 300 /\
  pos (measure (Some (mkDOMRect 0 0 800 600)) mounted) <> pos mounted.
Proof.
  unfold mounted. cbn.
  repeat split; try lra.
  intros H. injection H as Hx _. lra.
Qed.

(** ** Releasing a drag *)





(** ** The next change of direction *)

Lemma nextDeadline_window now rnd :
  0 <= rnd < 1 ->
  now < nextDeadline now rnd /\
  now + 700 <= nextDeadline now rnd <= now + 2200.
Proof.
  intros [H0 H1].
  unfold nextDeadline, CHANGE_INTERVAL_MIN, CHANGE_INTERVAL_MAX. lra.
Qed.

(** C7.  With [Math.random()] in [0, 1): a frame outside a drag whose time
    has reached the deadline, and a pointer release during a drag, both set
    a deadline strictly later than the time of the event and between that
    time plus 700 and that time plus 2200. *)
Theorem deadline_window rnd_iv :
  0 <= rnd_iv < 1 ->
  (forall t last rnd_dir s,
     dragging s = false -> t >= nextChangeAt s ->
     t < nextChangeAt (step t last rnd_dir rnd_iv s) /\
     t + 700 <= nextChangeAt (step t last rnd_dir rnd_iv s) <= t + 2200) /\
  (forall now rnd_dir s,
     dragging s = true ->
     now < nextChangeAt (onPointerUp now rnd_dir rnd_iv s) /\
     now + 700 <= nextChangeAt (onPointerUp now rnd_dir rnd_iv s) <= now + 2200).
Proof.
  intros Hr. split.
  - intros t last rnd_dir s Hd Ht.
    rewrite (step_deadline _ _ _ _ _ Hd).
    destruct (Rge_dec t (nextChangeAt s)); [|contradiction].
    apply nextDeadline_window. exact Hr.
  - intros now rnd_dir s Hd.
    destruct (onPointerUp_release now rnd_dir rnd_iv s Hd) as (_ & _ & ->).
    apply nextDeadline_window. exact Hr.
Qed.

(** The first deadline of [mounted] is 700; the frame at 700 with
    [Math.random()] = 1/2 sets the next one inside [1400, 2900]. *)
Lemma deadline_window_witness :
  700 < nextChangeAt (step 700 684 0 (1 / 2) mounted) /\
  700 + 700 <= nextChangeAt (step 700 684 0 (1 / 2) mounted) <= 700 + 2200.
Proof.
  assert (Hr : 0 <= 1 / 2 < 1) by lra.
  assert (Hdue : 700 >= nextChangeAt mounted).
  { cbn. unfold nextDeadline, CHANGE_INTERVAL_MIN, CHANGE_INTERVAL_MAX. lra. }
  destruct (deadline_window (1 / 2) Hr) as [Hstep _].
  exact (Hstep 700 684 0 mounted eq_refl Hdue).
Defined.

(** ** Dragging *)

(** What [clamp] does when the interval is not empty, and when it is. *)
Lemma clamp_cases (v lo hi : R) :
  (lo <= hi ->
     lo <= clamp v lo hi <= hi /\
     (v < lo -> clamp v lo hi = lo) /\
     (lo <= v <= hi -> clamp v lo hi = v) /\
     (hi < v -> clamp v lo hi = hi)) /\
  (hi < lo -> clamp v lo hi = lo).
Proof.
  unfold clamp. split.
  - intros Hle. split; [|split; [|split]].
    + break_max; lra.
    + intros Hv. break_max; lra.
    + intros [Hv1 Hv2]. break_max; lra.
    + intros Hv. break_max; lra.
  - intros Hlt. break_max; lra.
Qed.

Lemma onPointerMove_pos e crect s :
  dragging s = true ->
  pos (onPointerMove e crect s) =
    {| x := clamp (clientX e - left crect - x (dragOffset s))
              (padding (bounds s)) (w (bounds s) - padding (bounds s));
       y := clamp (clientY e - top crect - y (dragOffset s))
              (padding (bounds s)) (h (bounds s) - padding (bounds s)) |}.
Proof.
  intros Hd. unfold onPointerMove. rewrite Hd. reflexivity.
Qed.

(** Ten is below the padding 24, so it clamps to 24 whatever the upper end. *)
Lemma clamp_10_24 (hi : R) : clamp 10 24 hi = 24.
Proof. unfold clamp. break_max; lra. Qed.

(** C8.  A pointer move during a drag puts the position at the pointer
    position in container coordinates minus the grab offset, clamped on each
    axis between the padding and the dimension minus the padding ([clamp]
    returns its argument inside the interval and the nearer end outside; the
    padding when the interval is empty).  Grabbing the bug at the centre of
    its rectangle stores a zero offset, and with padding 24 a move to
    container-local (10, 10) then gives (24, 24). *)
Theorem drag_update :
  (forall e crect s,
     dragging s = true ->
     pos (onPointerMove e crect s) =
       {| x := clamp (clientX e - left crect - x (dragOffset s))
                 (padding (bounds s)) (w (bounds s) - padding (bounds s));
          y := clamp (clientY e - top crect - y (dragOffset s))
                 (padding (bounds s)) (h (bounds s) - padding (bounds s)) |}) /\
  (forall v lo hi,
     (lo <= hi ->
        lo <= clamp v lo hi <= hi /\
        (v < lo -> clamp v lo hi = lo) /\
        (lo <= v <= hi -> clamp v lo hi = v) /\
        (hi < v -> clamp v lo hi = hi)) /\
     (hi < lo -> clamp v lo hi = lo)) /\
  (forall e0 rect s0 e crect,
     padding (bounds s0) = 24 ->
     clientX e0 = left rect + width rect / 2 ->
     clientY e0 = top rect + height rect / 2 ->
     clientX e - left crect = 10 ->
     clientY e - top crect = 10 ->
     dragOffset (onPointerDown e0 rect s0) = {| x := 0; y := 0 |} /\
     pos (onPointerMove e crect (onPointerDown e0 rect s0)) = {| x := 24; y := 24 |}).
Proof.
  split; [|split].
  - exact onPointerMove_pos.
  - exact clamp_cases.
  - intros e0 rect s0 e crect Hpad Hx0 Hy0 Hx Hy.
    destruct (onPointerDown_fields e0 rect s0) as (Hd & _ & _ & Hb & Ho).
    assert (Hoff : dragOffset (onPointerDown e0 rect s0) = {| x := 0; y := 0 |}).
    { rewrite Ho. f_equal; lra. }
    split; [exact Hoff|].
    rewrite (onPointerMove_pos _ _ _ Hd), Hoff, Hb, Hpad. cbn [x y].
    replace (clientX e - left crect - 0) with 10 by lra.
    replace (clientY e - top crect - 0) with 10 by lra.
    rewrite !clamp_10_24. reflexivity.
Qed.

(** The bug of a 400 by 300 container grabbed at its centre and dragged to
    (10, 10). *)
Lemma drag_update_witness :
  pos (onPointerMove (mkPointerEvent 10 10) (mkDOMRect 0 0 400 300)
         (onPointerDown (mkPointerEvent 200 150) (mkDOMRect 164 114 72 72) mounted))
  = {| x := 24; y := 24 |}.
Proof.
  destruct drag_update as (_ & _ & Hscenario).
  apply (Hscenario (mkPointerEvent 200 150) (mkDOMRect 164 114 72 72) mounted
           (mkPointerEvent 10 10) (mkDOMRect 0 0 400 300));
    cbn; lra.
Defined.

(** ** Facing *)

Lemma atan2_origin : atan2 0 0 = 0.
Proof.
  unfold atan2. repeat break_if; try lra; reflexivity.
Qed.

Lemma atan2_down (b : R) : 0 < b -> atan2 b 0 = PI / 2.
Proof.
  intros Hb. unfold atan2. repeat break_if; try lra; reflexivity.
Qed.

Lemma angleDeg_at_rest s : vel s = {| x := 0; y := 0 |} -> angleDeg s = 90.
Proof.
  intros Hv. unfold angleDeg. rewrite Hv. cbn [x y].
  rewrite atan2_origin. lra.
Qed.

(** During a drag the velocity is the zero vector [onPointerDown] wrote. *)
Lemma dragging_at_rest s :
  reachable s -> dragging s = true -> vel s = {| x := 0; y := 0 |}.
Proof.
  induction 1 as [now rd ri | ev s Hr IH]; [discriminate|].
  destruct ev as [rect|t last rd ri|e rect|e crect|now rd ri]; cbn [handle].
  - destruct rect as [rect|]; exact IH.
  - rewrite step_flag. intros Hd. rewrite (step_dragging _ _ _ _ _ Hd).
    exact (IH Hd).
  - intros _. reflexivity.
  - unfold onPointerMove. destruct (dragging s) eqn:Hd; cbn [negb].
    + intros _. cbn. exact (IH eq_refl).
    + rewrite Hd. discriminate.
  - destruct (dragging s) eqn:Hd.
    + destruct (onPointerUp_release now rd ri s Hd) as (Hf & _ & _).
      rewrite Hf. discriminate.
    + unfold onPointerUp. rewrite Hd. cbn [negb]. rewrite Hd. discriminate.
Qed.

(** C9 (as amended).  The facing angle is computed from the velocity alone;
    when the velocity is the zero vector it is 90 degrees, and so it is in
    every reachable state with a drag active, whatever it was before.  No
    earlier angle is kept. *)
Theorem facing_at_rest s :
  (vel s = {| x := 0; y := 0 |} -> angleDeg s = 90) /\
  (reachable s -> dragging s = true -> angleDeg s = 90).
Proof.
  split.
  - apply angleDeg_at_rest.
  - intros Hr Hd. apply angleDeg_at_rest. apply dragging_at_rest; assumption.
Qed.

Lemma facing_at_rest_witness :
  dragging (handle press_at_origin heading_down) = true /\
  angleDeg (handle press_at_origin heading_down) = 90.
Proof.
  split; [reflexivity|].
  destruct (facing_at_rest (handle press_at_origin heading_down)) as [_ Hdrag].
  apply Hdrag; [|reflexivity].
  apply reachable_handle. apply reachable_initial.
Defined.

Lemma heading_down_vel : vel heading_down = {| x := 0; y := 170 |}.
Proof.
  unfold heading_down. cbn [vel initial].
  unfold randVelocity, randUnitVector, SPEED. cbn [x y].
  replace (1 / 4 * PI * 2) with (PI / 2) by lra.
  rewrite cos_PI2, sin_PI2. f_equal; lra.
Qed.

(** C9 as stated fails: the bug heads straight down, facing 180 degrees; the
    pointer goes down on it, the velocity becomes zero and the facing angle
    becomes 90 degrees. *)
Lemma facing_reset_counterexample :
  reachable heading_down /\
  vel heading_down = {| x := 0; y := 170 |} /\
  angleDeg heading_down = 180 /\
  vel (handle press_at_origin heading_down) = {| x := 0; y := 0 |} /\
  angleDeg (handle press_at_origin heading_down) = 90 /\
  angleDeg (handle press_at_origin heading_down) <> angleDeg heading_down.
Proof.
  assert (H180 : angleDeg heading_down = 180).
  { unfold angleDeg. rewrite heading_down_vel. cbn [x y].
    rewrite atan2_down by lra.
    assert (Hpi := PI_neq0). field. exact Hpi. }
  assert (H90 : angleDeg (handle press_at_origin heading_down) = 90).
  { apply angleDeg_at_rest. reflexivity. }
  repeat split.
  - apply reachable_initial.
  - exact heading_down_vel.
  - exact H180.
  - exact H90.
  - rewrite H90, H180. lra.
Qed.

(** ** Containers with no room *)

Lemma cramped_maxX s :
  w (bounds s) < 2 * padding (bounds s) -> maxX s = minX s.
Proof.
  intros Hw. unfold maxX, minX. apply Rmax_left. lra.
Qed.

Lemma cramped_maxY s :
  h (bounds s) < 2 * padding (bounds s) -> maxY s = minY s.
Proof.
  intros Hh. unfold maxY, minY. apply Rmax_left. lra.
Qed.

Lemma step_parks_x t last rnd_dir rnd_iv s :
  w (bounds s) < 2 * padding (bounds s) -> dragging s = false ->
  x (pos (step t last rnd_dir rnd_iv s)) = padding (bounds s).
Proof.
  intros Hw Hd. rewrite (step_pos_x _ _ _ _ _ Hd), (cramped_maxX s Hw).
  unfold minX. repeat break_if; try reflexivity; lra.
Qed.

Lemma step_parks_y t last rnd_dir rnd_iv s :
  h (bounds s) < 2 * padding (bounds s) -> dragging s = false ->
  y (pos (step t last rnd_dir rnd_iv s)) = padding (bounds s).
Proof.
  intros Hh Hd. rewrite (step_pos_y _ _ _ _ _ Hd), (cramped_maxY s Hh).
  unfold minY. repeat break_if; try reflexivity; lra.
Qed.

Lemma clamp_cramped (v lo dim : R) : dim < 2 * lo -> clamp v lo (dim - lo) = lo.
Proof.
  intros Hd. apply (clamp_cases v lo (dim - lo)). lra.
Qed.

(** C10.  In a container narrower and lower than two paddings (one of size
    zero in particular) the limits of each axis coincide; every frame outside
    a drag and every pointer move during a drag returns a state, whose
    position is (padding, padding).  A frame during a drag returns the state
    it was given.  The handlers are total functions: they only compare, add
    and multiply numbers. *)
Theorem cramped_container_parks s :
  w (bounds s) < 2 * padding (bounds s) ->
  h (bounds s) < 2 * padding (bounds s) ->
  maxX s = minX s /\
  maxY s = minY s /\
  (forall t last rnd_dir rnd_iv,
     dragging s = false ->
     pos (step t last rnd_dir rnd_iv s) =
       {| x := padding (bounds s); y := padding (bounds s) |}) /\
  (forall e crect,
     dragging s = true ->
     pos (onPointerMove e crect s) =
       {| x := padding (bounds s); y := padding (bounds s) |}) /\
  (forall t last rnd_dir rnd_iv,
     dragging s = true -> step t last rnd_dir rnd_iv s = s).
Proof.
  intros Hw Hh.
  split; [exact (cramped_maxX s Hw)|].
  split; [exact (cramped_maxY s Hh)|].
  split; [|split].
  - intros t last rnd_dir rnd_iv Hd. apply vec2_eq.
    + apply step_parks_x; assumption.
    + apply step_parks_y; assumption.
  - intros e crect Hd. rewrite (onPointerMove_pos _ _ _ Hd).
    rewrite (clamp_cramped _ _ _ Hw), (clamp_cramped _ _ _ Hh). reflexivity.
  - intros t last rnd_dir rnd_iv Hd. apply step_dragging. exact Hd.
Qed.

(** The container of size zero: the first frame parks the bug at (24, 24). *)
Lemma cramped_container_parks_witness :
  w (bounds collapsed) = 0 /\ h (bounds collapsed) = 0 /\
  padding (bounds collapsed) = 24 /\
  pos (step 16 0 0 0 collapsed) = {| x := 24; y := 24 |}.
Proof.
  repeat split.
  assert (Hw : w (bounds collapsed) < 2 * padding (bounds collapsed)) by (cbn; lra).
  assert (Hh : h (bounds collapsed) < 2 * padding (bounds collapsed)) by (cbn; lra).
  destruct (cramped_container_parks collapsed Hw Hh) as (_ & _ & Hstep & _).
  exact (Hstep 16 0 0 0 eq_refl).
Defined.

(** * Further properties of the handlers *)

(** ** Bounds *)

(** The padding is 24 in every reachable state: the initial bounds and
    [measure] are the only writers and both write 24. *)
Theorem padding_is_24 s : reachable s -> padding (bounds s) = 24.
Proof.
  induction 1 as [now rd ri | ev s Hr IH]; [reflexivity|].
  destruct ev as [rect|t last rd ri|e rect|e crect|now rd ri]; cbn [handle].
  - destruct rect as [rect|]; [reflexivity|exact IH].
  - rewrite step_bounds. exact IH.
  - exact IH.
  - rewrite onPointerMove_bounds. exact IH.
  - rewrite onPointerUp_bounds. exact IH.
Qed.

Lemma padding_is_24_witness :
  padding (bounds (handle (Frame 16 0 0 0) mounted)) = 24.
Proof.
  apply padding_is_24. apply reachable_handle.
  exact (reachable_handle (Measure (Some (mkDOMRect 0 0 400 300))) _
           (reachable_initial 0 0 0)).
Defined.

(** Whatever the size of the container and wherever the bug was, a frame
    outside a drag and a pointer move during a drag leave each coordinate
    between the padding and [max padding (dimension - padding)]. *)
Theorem position_within_limits t last rnd_dir rnd_iv e crect s :
  (dragging s = false ->
     bounds (step t last rnd_dir rnd_iv s) = bounds s /\
     within_limits (step t last rnd_dir rnd_iv s)) /\
  (dragging s = true ->
     bounds (onPointerMove e crect s) = bounds s /\
     within_limits (onPointerMove e crect s)).
Proof.
  split; intros Hd.
  - split; [apply step_bounds|apply step_within_limits; exact Hd].
  - split; [apply onPointerMove_bounds|apply onPointerMove_within_limits; exact Hd].
Qed.

Lemma position_within_limits_witness :
  within_limits (step 16 0 0 0 narrow).
Proof.
  destruct (position_within_limits 16 0 0 0 (mkPointerEvent 0 0)
              (mkDOMRect 0 0 20 300) narrow) as [Hstep _].
  exact (proj2 (Hstep eq_refl)).
Defined.

(** ** Containment along a run *)

Lemma measure_settles rect s :
  48 <= width rect -> 48 <= height rect -> settled (measure (Some rect) s).
Proof.
  intros Hw Hh. unfold settled, roomy, contained. cbn. lra.
Qed.

Lemma handle_settled ev s :
  well_measured ev -> settled s -> settled (handle ev s).
Proof.
  intros Hm (Hpad & Hroom & Hc).
  destruct ev as [rect|t last rd ri|e rect|e crect|now rd ri]; cbn [handle].
  - destruct rect as [rect|].
    + destruct Hm as [Hw Hh]. apply measure_settles; assumption.
    + exact (conj Hpad (conj Hroom Hc)).
  - assert (Hb := step_bounds t last rd ri s).
    unfold settled. rewrite Hb. split; [exact Hpad|]. split; [exact Hroom|].
    destruct (dragging s) eqn:Hd.
    + rewrite (step_dragging _ _ _ _ _ Hd). exact Hc.
    + apply within_limits_contained; [rewrite Hb; exact Hroom|].
      apply step_within_limits. exact Hd.
  - exact (conj Hpad (conj Hroom Hc)).
  - assert (Hb := onPointerMove_bounds e crect s).
    unfold settled. rewrite Hb. split; [exact Hpad|]. split; [exact Hroom|].
    destruct (dragging s) eqn:Hd.
    + apply within_limits_contained; [rewrite Hb; exact Hroom|].
      apply onPointerMove_within_limits. exact Hd.
    + unfold onPointerMove. rewrite Hd. exact Hc.
  - assert (Hb := onPointerUp_bounds now rd ri s).
    unfold settled. rewrite Hb. split; [exact Hpad|]. split; [exact Hroom|].
    apply onPointerUp_contained; assumption.
Qed.

Lemma run_settled evs : forall s,
  Forall well_measured evs -> settled s -> settled (run evs s).
Proof.
  induction evs as [|ev evs IH]; intros s Hall Hs; [exact Hs|].
  inversion Hall as [|ev' evs' Hev Hrest]; subst.
  cbn [run]. apply IH; [exact Hrest|].
  apply handle_settled; assumption.
Qed.

(** Once a measurement has reported at least 48 by 48, and as long as every
    later measurement does, the position is contained at the end of any run
    of events (so after each event of the run): [24 <= x <= w - 24] and
    [24 <= y <= h - 24]. *)
Theorem contained_along_runs rect s0 evs :
  48 <= width rect -> 48 <= height rect ->
  Forall well_measured evs ->
  padding (bounds (run evs (measure (Some rect) s0))) = 24 /\
  contained (run evs (measure (Some rect) s0)).
Proof.
  intros Hw Hh Hall.
  destruct (run_settled evs (measure (Some rect) s0) Hall
              (measure_settles rect s0 Hw Hh)) as (Hpad & _ & Hc).
  exact (conj Hpad Hc).
Qed.

(** A press, a move far out of the container and a frame, after the mount in
    a 400 by 300 container. *)
Lemma contained_along_runs_witness :
  contained
    (run (PointerDown (mkPointerEvent 200 150) (mkDOMRect 164 114 72 72)
          :: PointerMove (mkPointerEvent 900 (-50)) (mkDOMRect 0 0 400 300)
          :: Frame 16 0 0 0 :: nil)
       (measure (Some (mkDOMRect 0 0 400 300)) (initial 0 0 0))).
Proof.
  assert (Hw : 48 <= width (mkDOMRect 0 0 400 300)) by (cbn; lra).
  assert (Hh : 48 <= height (mkDOMRect 0 0 400 300)) by (cbn; lra).
  refine (proj2 (contained_along_runs (mkDOMRect 0 0 400 300) (initial 0 0 0) _ Hw Hh _)).
  repeat constructor.
Defined.

(** ** Events that do not apply *)

Lemma ignored_handle ev s :
  ignored (dragging s) ev = true -> handle ev s = s.
Proof.
  destruct ev as [rect|t last rd ri|e rect|e crect|now rd ri]; cbn [handle ignored].
  - destruct rect; [discriminate|reflexivity].
  - intros Hd. apply step_dragging. exact Hd.
  - discriminate.
  - intros Hd. unfold onPointerMove. rewrite Hd. reflexivity.
  - intros Hd. unfold onPointerUp. rewrite Hd. reflexivity.
Qed.

(** Events that do not apply in the current mode change nothing, however
    many of them arrive: frames during a drag, pointer moves and releases
    outside a drag, measurements without a container.  The whole state,
    velocity and deadline included, is the one before. *)
Theorem ignored_events_change_nothing evs s :
  Forall (fun ev => ignored (dragging s) ev = true) evs -> run evs s = s.
Proof.
  induction evs as [|ev evs IH]; intros Hall; [reflexivity|].
  inversion Hall as [|ev' evs' Hev Hrest]; subst.
  cbn [run]. rewrite (ignored_handle ev s Hev). apply IH. exact Hrest.
Qed.

(** Stray pointer events on the mounted, free-running bug. *)
Lemma ignored_events_change_nothing_witness :
  run (PointerMove (mkPointerEvent 10 10) (mkDOMRect 0 0 400 300)
       :: PointerUp 5 0 0
       :: PointerMove (mkPointerEvent 300 20) (mkDOMRect 0 0 400 300) :: nil)
    mounted = mounted.
Proof.
  apply ignored_events_change_nothing.
  repeat constructor.
Defined.

(** ** Dragging, move after move *)

(** The position of a drag depends on the latest pointer position only: a
    pointer move overwrites what the move before it did, and the same move
    twice is the same as once. *)
Theorem last_move_wins e1 crect1 e2 crect2 s :
  onPointerMove e2 crect2 (onPointerMove e1 crect1 s) = onPointerMove e2 crect2 s /\
  onPointerMove e1 crect1 (onPointerMove e1 crect1 s) = onPointerMove e1 crect1 s.
Proof.
  unfold onPointerMove. destruct (dragging s) eqn:Hd; cbn [negb].
  - cbn. rewrite Hd. cbn [negb]. split; reflexivity.
  - rewrite Hd. cbn [negb]. split; reflexivity.
Qed.

(** ** Frames away from the walls *)

Lemma vec2_ext (a b : Vec2) : x a = x b -> y a = y b -> a = b.
Proof. destruct a, b; cbn; intros -> ->; reflexivity. Qed.

(** A frame that neither changes direction nor reaches a limit only writes
    the integrated position. *)
Lemma step_free t last rnd_dir rnd_iv s :
  dragging s = false ->
  t < nextChangeAt s ->
  minX s < integratedX t last s < maxX s ->
  minY s < integratedY t last s < maxY s ->
  step t last rnd_dir rnd_iv s =
    setPos {| x := integratedX t last s; y := integratedY t last s |} s.
Proof.
  unfold minX, maxX, minY, maxY, integratedX, integratedY.
  intros Hd Ht Hx Hy. unfold step. rewrite Hd. cbn [negb].
  destruct (Rge_dec t (nextChangeAt s)) as [Hc|_]; [lra|].
  destruct (Rle_dec _ _) as [Hc|_]; [lra|].
  destruct (Rge_dec _ _) as [Hc|_]; [lra|].
  destruct (Rle_dec _ _) as [Hc|_]; [lra|].
  destruct (Rge_dec _ _) as [Hc|_]; [lra|].
  reflexivity.
Qed.

(** Away from the walls and before the deadline a frame is plain
    integration: it writes the position the code integrates, position plus
    velocity times elapsed seconds on each axis, and nothing else; velocity,
    deadline, drag state and bounds are the ones before. *)
Theorem free_flight t last rnd_dir rnd_iv s :
  dragging s = false ->
  t < nextChangeAt s ->
  minX s < integratedX t last s < maxX s ->
  minY s < integratedY t last s < maxY s ->
  step t last rnd_dir rnd_iv s =
    setPos {| x := x (pos s) + x (vel s) * ((t - last) / 1000);
              y := y (pos s) + y (vel s) * ((t - last) / 1000) |} s.
Proof.
  intros Hd Ht Hx Hy. exact (step_free t last rnd_dir rnd_iv s Hd Ht Hx Hy).
Qed.

(** The mounted bug, heading right from (200, 150), 16 ms later. *)
Lemma free_flight_witness :
  step 16 0 0 0 mounted =
    setPos {| x := x (pos mounted) + x (vel mounted) * ((16 - 0) / 1000);
              y := y (pos mounted) + y (vel mounted) * ((16 - 0) / 1000) |} mounted.
Proof.
  assert (Hv : vel mounted = {| x := 170; y := 0 |}).
  { unfold mounted. cbn. apply randVelocity_0. }
  assert (Hlim : minX mounted = 24 /\ maxX mounted = 376 /\
                 minY mounted = 24 /\ maxY mounted = 276).
  { unfold minX, maxX, minY, maxY, mounted. cbn.
    repeat split; try reflexivity; break_max; lra. }
  destruct Hlim as (HlX & HmX & HlY & HmY).
  apply free_flight.
  - reflexivity.
  - unfold mounted. cbn.
    unfold nextDeadline, CHANGE_INTERVAL_MIN, CHANGE_INTERVAL_MAX. lra.
  - rewrite HlX, HmX. unfold integratedX. rewrite Hv. unfold mounted. cbn. lra.
  - rewrite HlY, HmY. unfold integratedY. rewrite Hv. unfold mounted. cbn. lra.
Defined.

(** The position a frame writes does not depend on the random numbers the
    frame draws: when a frame changes direction, it still moves the bug with
    the velocity it had, and the fresh one acts from the next frame on. *)
Theorem frame_position_ignores_draws t last rnd_dir rnd_iv rnd_dir' rnd_iv' s :
  pos (step t last rnd_dir rnd_iv s) = pos (step t last rnd_dir' rnd_iv' s).
Proof.
  destruct (dragging s) eqn:Hd.
  - rewrite !(step_dragging _ _ _ _ _ Hd). reflexivity.
  - apply vec2_ext.
    + rewrite !(step_pos_x _ _ _ _ _ Hd). reflexivity.
    + rewrite !(step_pos_y _ _ _ _ _ Hd). reflexivity.
Qed.

(** ** Frames at the walls *)

(** After a frame outside a drag, a bug that sits on a limit does not head
    into it: on the lower limit the velocity component is not negative, on
    the upper limit it is not positive.  Landing exactly on a limit counts
    (the tests of [step] are not strict).  The limits of the axis must be
    apart; when they coincide the bug is on both at once. *)
Theorem on_wall_heads_inward t last rnd_dir rnd_iv s :
  dragging s = false ->
  (minX s < maxX s ->
     (x (pos (step t last rnd_dir rnd_iv s)) = minX s ->
        0 <= x (vel (step t last rnd_dir rnd_iv s))) /\
     (x (pos (step t last rnd_dir rnd_iv s)) = maxX s ->
        x (vel (step t last rnd_dir rnd_iv s)) <= 0)) /\
  (minY s < maxY s ->
     (y (pos (step t last rnd_dir rnd_iv s)) = minY s ->
        0 <= y (vel (step t last rnd_dir rnd_iv s))) /\
     (y (pos (step t last rnd_dir rnd_iv s)) = maxY s ->
        y (vel (step t last rnd_dir rnd_iv s)) <= 0)).
Proof.
  intros Hd. split; intros Hlim.
  - rewrite (step_pos_x _ _ _ _ _ Hd), (step_vel_x _ _ _ _ _ Hd).
    assert (Ha := Rabs_pos (x (redirected t rnd_dir s))).
    split; intros Hp; repeat break_if; lra.
  - rewrite (step_pos_y _ _ _ _ _ Hd), (step_vel_y _ _ _ _ _ Hd).
    assert (Ha := Rabs_pos (y (redirected t rnd_dir s))).
    split; intros Hp; repeat break_if; lra.
Qed.

(** The scenario bug after its frame: on the right limit, heading left. *)
Lemma on_wall_heads_inward_witness :
  x (vel (step 100 0 0 0 (near_right_edge 1000))) <= 0.
Proof.
  destruct (near_right_edge_limits 1000) as (HlX & HmX & _).
  destruct (on_wall_heads_inward 100 0 0 0 (near_right_edge 1000) eq_refl)
    as [Hx _].
  assert (Hlim : minX (near_right_edge 1000) < maxX (near_right_edge 1000))
    by (rewrite HlX, HmX; lra).
  apply (Hx Hlim).
  rewrite (step_pos_x _ _ _ _ _ (eq_refl : dragging (near_right_edge 1000) = false)).
  rewrite HlX, HmX. unfold integratedX. cbn.
  repeat break_if; lra.
Defined.

Lemma Rabs_Rabs_opp (c : R) : Rabs (- Rabs c) = Rabs c.
Proof. rewrite Rabs_Ropp. apply Rabs_Rabsolu. Qed.

(** A frame that does not change direction keeps the size of each velocity
    component and the deadline. *)
Lemma step_keeps_components t last rnd_dir rnd_iv s :
  dragging s = true \/ t < nextChangeAt s ->
  Rabs (x (vel (step t last rnd_dir rnd_iv s))) = Rabs (x (vel s)) /\
  Rabs (y (vel (step t last rnd_dir rnd_iv s))) = Rabs (y (vel s)) /\
  nextChangeAt (step t last rnd_dir rnd_iv s) = nextChangeAt s.
Proof.
  intros Hcase. destruct (dragging s) eqn:Hd.
  - rewrite (step_dragging _ _ _ _ _ Hd). repeat split.
  - destruct Hcase as [Hc|Ht]; [discriminate|].
    rewrite (step_vel_x _ _ _ _ _ Hd), (step_vel_y _ _ _ _ _ Hd),
      (step_deadline _ _ _ _ _ Hd), (redirected_keeps _ _ _ Ht).
    repeat split; repeat break_if;
      first [reflexivity | apply Rabs_Rabsolu | apply Rabs_Rabs_opp | lra].
Qed.

(** Reflection is elastic axis by axis: a frame that does not change
    direction can only change the signs of the two velocity components,
    never their sizes, and leaves the deadline alone. *)
Theorem reflection_keeps_components t last rnd_dir rnd_iv s :
  t < nextChangeAt s ->
  Rabs (x (vel (step t last rnd_dir rnd_iv s))) = Rabs (x (vel s)) /\
  Rabs (y (vel (step t last rnd_dir rnd_iv s))) = Rabs (y (vel s)) /\
  nextChangeAt (step t last rnd_dir rnd_iv s) = nextChangeAt s.
Proof.
  intros Ht. apply step_keeps_components. right. exact Ht.
Qed.

Lemma reflection_keeps_components_witness :
  Rabs (x (vel (step 100 0 0 0 (near_right_edge 1000)))) =
  Rabs (x (vel (near_right_edge 1000))).
Proof.
  assert (Ht : 100 < nextChangeAt (near_right_edge 1000)) by (cbn; lra).
  exact (proj1 (reflection_keeps_components 100 0 0 0 (near_right_edge 1000) Ht)).
Defined.

(** ** Time between two changes of direction *)

Lemma nextDeadline_after now rnd : 0 <= rnd -> now + 700 <= nextDeadline now rnd.
Proof.
  intros Hr. unfold nextDeadline, CHANGE_INTERVAL_MIN, CHANGE_INTERVAL_MAX. nra.
Qed.

Lemma rerandomised_deadline t1 s :
  rerandomised_at t1 s -> t1 + 700 <= nextChangeAt s.
Proof.
  intros [(last & rd & ri & s0 & Hr & Hd & Hdue & ->)|(rd & ri & s0 & Hr & Hd & ->)].
  - rewrite (step_deadline _ _ _ _ _ Hd).
    destruct (Rge_dec t1 (nextChangeAt s0)); [|contradiction].
    apply nextDeadline_after. exact Hr.
  - destruct (onPointerUp_release t1 rd ri s0 Hd) as (_ & _ & ->).
    apply nextDeadline_after. exact Hr.
Qed.

(** No event that can follow [t1] brings the deadline below [t1 + 700]. *)
Lemma handle_keeps_deadline_late t1 ev s :
  not_before t1 ev ->
  t1 + 700 <= nextChangeAt s -> t1 + 700 <= nextChangeAt (handle ev s).
Proof.
  intros Hev Hlate.
  destruct ev as [rect|t last rd ri|e rect|e crect|now rd ri]; cbn [handle].
  - destruct rect; exact Hlate.
  - destruct (dragging s) eqn:Hd.
    + rewrite (step_dragging _ _ _ _ _ Hd). exact Hlate.
    + rewrite (step_deadline _ _ _ _ _ Hd).
      destruct (Rge_dec t (nextChangeAt s)) as [Hdue|_]; [|exact Hlate].
      cbn in Hev. assert (H := nextDeadline_after t ri Hev). lra.
  - exact Hlate.
  - unfold onPointerMove. destruct (dragging s); exact Hlate.
  - destruct (dragging s) eqn:Hd.
    + destruct (onPointerUp_release now rd ri s Hd) as (_ & _ & ->).
      destruct Hev as [Hnow Hr].
      assert (H := nextDeadline_after now ri Hr). lra.
    + unfold onPointerUp. rewrite Hd. exact Hlate.
Qed.

Lemma run_keeps_deadline_late t1 evs : forall s,
  Forall (not_before t1) evs ->
  t1 + 700 <= nextChangeAt s -> t1 + 700 <= nextChangeAt (run evs s).
Proof.
  induction evs as [|ev evs IH]; intros s Hall Hlate; [exact Hlate|].
  inversion Hall as [|ev' evs' Hev Hrest]; subst.
  cbn [run]. apply IH; [exact Hrest|].
  apply handle_keeps_deadline_late; assumption.
Qed.

(** The timer never fires within 700 ms of the last change of direction.
    Once the direction has been drawn afresh at [t1], by a due frame or by
    a release, and whatever events follow (frames, presses, moves,
    measurements, and releases not dated before [t1]), the deadline stays at
    [t1 + 700] or later; so a frame dated before [t1 + 700] does not change
    direction: it keeps the deadline and the size of each velocity
    component.  Only a release can draw a direction sooner. *)
Theorem changes_700_apart t1 evs s :
  rerandomised_at t1 s ->
  Forall (not_before t1) evs ->
  t1 + 700 <= nextChangeAt (run evs s) /\
  (forall t2 last2 rnd_dir2 rnd_iv2,
     t2 < t1 + 700 ->
     nextChangeAt (step t2 last2 rnd_dir2 rnd_iv2 (run evs s)) =
       nextChangeAt (run evs s) /\
     Rabs (x (vel (step t2 last2 rnd_dir2 rnd_iv2 (run evs s)))) =
       Rabs (x (vel (run evs s))) /\
     Rabs (y (vel (step t2 last2 rnd_dir2 rnd_iv2 (run evs s)))) =
       Rabs (y (vel (run evs s)))).
Proof.
  intros Hre Hall.
  assert (Hlate : t1 + 700 <= nextChangeAt (run evs s)).
  { apply run_keeps_deadline_late; [exact Hall|].
    apply rerandomised_deadline. exact Hre. }
  split; [exact Hlate|].
  intros t2 last2 rd2 ri2 Ht2.
  destruct (step_keeps_components t2 last2 rd2 ri2 (run evs s))
    as (Hx & Hy & Hk); [right; lra|].
  exact (conj Hk (conj Hx Hy)).
Qed.

(** The mounted bug changes direction at 700 ms, is pressed and dragged, and
    released at 900 ms; the deadline is then 900 + 700 + 750, and a frame at
    1399 ms would not change it. *)
Lemma changes_700_apart_witness :
  700 + 700 <=
    nextChangeAt
      (run (press_at_origin
            :: PointerMove (mkPointerEvent 10 10) (mkDOMRect 0 0 400 300)
            :: PointerUp 900 0 (1 / 2) :: nil)
         (step 700 684 (1 / 4) (1 / 2) mounted)).
Proof.
  assert (Hre : rerandomised_at 700 (step 700 684 (1 / 4) (1 / 2) mounted)).
  { left. exists 684, (1 / 4), (1 / 2), mounted.
    split; [lra|]. split; [reflexivity|]. split; [|reflexivity].
    cbn. unfold nextDeadline, CHANGE_INTERVAL_MIN, CHANGE_INTERVAL_MAX. lra. }
  refine (proj1 (changes_700_apart 700 _ _ Hre _)).
  constructor; [exact I|].
  constructor; [exact I|].
  constructor; [cbn; lra|].
  constructor.
Defined.

(** ** The range of the facing angle *)

Lemma atan2_range (b a : R) : - PI < atan2 b a <= PI.
Proof.
  assert (Hpi := PI_RGT_0). unfold atan2.
  destruct (Rlt_dec 0 a) as [Hpos|Hnpos].
  - assert (H := atan_bound (b / a)). lra.
  - destruct (Rlt_dec a 0) as [Hneg|Hnneg].
    + assert (H := atan_bound (b / a)).
      assert (Hinv : / a < 0) by (apply Rinv_lt_0_compat; exact Hneg).
      destruct (Rle_dec 0 b) as [Hb|Hb].
      * assert (Hq : b / a <= 0) by (unfold Rdiv; nra).
        assert (Hat : atan (b / a) <= 0).
        { destruct Hq as [Hq|Hq].
          - left. rewrite <- atan_0. apply atan_increasing. exact Hq.
          - rewrite Hq, atan_0. lra. }
        lra.
      * assert (Hq : 0 < b / a) by (unfold Rdiv; nra).
        assert (Hat : 0 < atan (b / a)).
        { rewrite <- atan_0. apply atan_increasing. exact Hq. }
        lra.
    + repeat break_if; lra.
Qed.

(** The facing angle lies between -90 and 270 degrees, whatever the
    velocity.  (On the reals -90 itself is not reached; the code reaches it
    with a negative zero, where [Math.atan2] returns -PI.) *)
Theorem facing_range s : -90 <= angleDeg s <= 270.
Proof.
  assert (Hpi := PI_RGT_0).
  destruct (atan2_range (y (vel s)) (x (vel s))) as [Hlo Hhi].
  unfold angleDeg. set (u := atan2 (y (vel s)) (x (vel s))) in *.
  assert (Hi : 0 < / PI) by (apply Rinv_0_lt_compat; exact Hpi).
  assert (Hone : PI * / PI = 1) by (apply Rinv_r; lra).
  assert (Hu : u * (180 / PI) = 180 * (u * / PI)) by (unfold Rdiv; ring).
  rewrite Hu.
  assert (H1 : 0 < (u + PI) * / PI) by (apply Rmult_lt_0_compat; lra).
  assert (H2 : 0 <= (PI - u) * / PI) by (apply Rmult_le_pos; lra).
  lra.
Qed.

(** ** Who writes what *)

Lemma step_offset t last rnd_dir rnd_iv s :
  dragOffset (step t last rnd_dir rnd_iv s) = dragOffset s.
Proof.
  unfold step. destruct (dragging s); cbn [negb]; [reflexivity|].
  repeat break_if; reflexivity.
Qed.

Lemma onPointerUp_idle now rnd_dir rnd_iv s :
  dragging s = false -> onPointerUp now rnd_dir rnd_iv s = s.
Proof.
  intros Hd. unfold onPointerUp. rewrite Hd. reflexivity.
Qed.

Lemma onPointerUp_offset now rnd_dir rnd_iv s :
  dragOffset (onPointerUp now rnd_dir rnd_iv s) = dragOffset s.
Proof.
  unfold onPointerUp. destruct (dragging s); cbn [negb]; [|reflexivity].
  break_if; reflexivity.
Qed.

Lemma onPointerMove_rest e crect s :
  dragOffset (onPointerMove e crect s) = dragOffset s /\
  dragging (onPointerMove e crect s) = dragging s /\
  vel (onPointerMove e crect s) = vel s /\
  nextChangeAt (onPointerMove e crect s) = nextChangeAt s.
Proof.
  unfold onPointerMove. destruct (dragging s) eqn:Hd; cbn [negb]; cbn;
    repeat split; assumption.
Qed.

(** Each piece of state has few writers.  If an event changes the bounds it
    is a measurement that found the container; if it changes the grab offset
    it is a pointer press; if it changes the drag flag it is a press or a
    release; if it changes the deadline it is a frame outside a drag whose
    time has reached the deadline, or a release during a drag.  Pointer
    moves in particular change nothing but the position. *)
Theorem writers ev s :
  (bounds (handle ev s) <> bounds s -> exists rect, ev = Measure (Some rect)) /\
  (dragOffset (handle ev s) <> dragOffset s ->
     exists e rect, ev = PointerDown e rect) /\
  (dragging (handle ev s) <> dragging s ->
     (exists e rect, ev = PointerDown e rect /\ dragging s = false) \/
     (exists now rnd_dir rnd_iv, ev = PointerUp now rnd_dir rnd_iv /\ dragging s = true)) /\
  (nextChangeAt (handle ev s) <> nextChangeAt s ->
     (exists t last rnd_dir rnd_iv,
        ev = Frame t last rnd_dir rnd_iv /\ dragging s = false /\ t >= nextChangeAt s) \/
     (exists now rnd_dir rnd_iv, ev = PointerUp now rnd_dir rnd_iv /\ dragging s = true)).
Proof.
  destruct ev as [rect|t last rd ri|e rect|e crect|now rd ri]; cbn [handle].
  - destruct rect as [rect|].
    + split; [intros _; exists rect; reflexivity|].
      repeat split; intros H; exfalso; apply H; reflexivity.
    + repeat split; intros H; exfalso; apply H; reflexivity.
  - split; [intros H; exfalso; apply H; apply step_bounds|].
    split; [intros H; exfalso; apply H; apply step_offset|].
    split; [intros H; exfalso; apply H; apply step_flag|].
    intros H. destruct (dragging s) eqn:Hd.
    + exfalso. apply H. rewrite (step_dragging _ _ _ _ _ Hd). reflexivity.
    + rewrite (step_deadline _ _ _ _ _ Hd) in H.
      destruct (Rge_dec t (nextChangeAt s)) as [Hdue|_].
      * left. exists t, last, rd, ri. repeat split. exact Hdue.
      * exfalso. apply H. reflexivity.
  - split; [intros H; exfalso; apply H; reflexivity|].
    split; [intros _; exists e, rect; reflexivity|].
    split; [|intros H; exfalso; apply H; reflexivity].
    intros H. left. exists e, rect. split; [reflexivity|].
    cbn in H. destruct (dragging s); [exfalso; apply H; reflexivity|reflexivity].
  - destruct (onPointerMove_rest e crect s) as (Ho & Hf & _ & Hn).
    split; [intros H; exfalso; apply H; apply onPointerMove_bounds|].
    split; [intros H; exfalso; apply H; exact Ho|].
    split; intros H; exfalso; apply H; assumption.
  - split; [intros H; exfalso; apply H; apply onPointerUp_bounds|].
    split; [intros H; exfalso; apply H; apply onPointerUp_offset|].
    destruct (dragging s) eqn:Hd.
    + split; intros _; right; exists now, rd, ri; split; reflexivity.
    + rewrite (onPointerUp_idle _ _ _ _ Hd).
      split; intros H; exfalso; apply H; [exact Hd|reflexivity].
Qed.

(** The frame at which the mounted bug changes direction moves the deadline. *)
Lemma writers_witness :
  exists t last rnd_dir rnd_iv,
    Frame 700 684 0 (1 / 2) = Frame t last rnd_dir rnd_iv /\
    dragging mounted = false /\ t >= nextChangeAt mounted.
Proof.
  destruct (writers (Frame 700 684 0 (1 / 2)) mounted) as (_ & _ & _ & Hn).
  destruct Hn as [Hframe|Hup].
  - cbn [handle].
    rewrite (step_deadline _ _ _ _ _ (eq_refl : dragging mounted = false)).
    unfold mounted. cbn.
    unfold nextDeadline, CHANGE_INTERVAL_MIN, CHANGE_INTERVAL_MAX.
    break_if; lra.
  - exact Hframe.
  - destruct Hup as (now & rd & ri & Heq & _). discriminate Heq.
Defined.

(** ** An axis with no room *)

(** On an axis no longer than two paddings (the width here; the other axis
    may have room) the two limits are the padding; every frame outside a
    drag and every pointer move during one puts x at the padding; and a
    frame that does not change direction sets the x velocity by the side the
    integrated position falls on: to [|vx|] when it is at most the padding,
    to [-|vx|] when it is beyond.  So once x is at the padding, a frame that
    takes time and integrates x off the padding negates the x velocity. *)
Theorem cramped_axis_flips t last rnd_dir rnd_iv e crect s :
  w (bounds s) <= 2 * padding (bounds s) ->
  (dragging s = false ->
     x (pos (step t last rnd_dir rnd_iv s)) = padding (bounds s)) /\
  (dragging s = true ->
     x (pos (onPointerMove e crect s)) = padding (bounds s)) /\
  (dragging s = false -> t < nextChangeAt s ->
     (integratedX t last s <= padding (bounds s) ->
        x (vel (step t last rnd_dir rnd_iv s)) = Rabs (x (vel s))) /\
     (padding (bounds s) < integratedX t last s ->
        x (vel (step t last rnd_dir rnd_iv s)) = - Rabs (x (vel s)))) /\
  (dragging s = false -> t < nextChangeAt s ->
   x (pos s) = padding (bounds s) -> last < t ->
   integratedX t last s <> padding (bounds s) ->
     x (vel (step t last rnd_dir rnd_iv s)) = - x (vel s)).
Proof.
  intros Hw.
  assert (Hmax : maxX s = minX s).
  { unfold maxX, minX. apply Rmax_left. lra. }
  assert (Hside : dragging s = false -> t < nextChangeAt s ->
     (integratedX t last s <= padding (bounds s) ->
        x (vel (step t last rnd_dir rnd_iv s)) = Rabs (x (vel s))) /\
     (padding (bounds s) < integratedX t last s ->
        x (vel (step t last rnd_dir rnd_iv s)) = - Rabs (x (vel s)))).
  { intros Hd Hdue.
    rewrite (step_vel_x _ _ _ _ _ Hd), Hmax, (redirected_keeps _ _ _ Hdue).
    unfold minX. split; intros Hn; repeat break_if; try reflexivity; lra. }
  split; [|split; [|split]].
  - intros Hd. rewrite (step_pos_x _ _ _ _ _ Hd), Hmax.
    unfold minX. repeat break_if; try reflexivity; lra.
  - intros Hd. rewrite (onPointerMove_pos _ _ _ Hd). cbn [x].
    unfold clamp. break_max; lra.
  - exact Hside.
  - intros Hd Hdue Hp Ht Hne.
    destruct (Hside Hd Hdue) as [Hlow Hhigh].
    assert (Hdt : 0 < (t - last) / 1000) by lra.
    destruct (Rle_dec (integratedX t last s) (padding (bounds s))) as [Hle|Hnle].
    + rewrite (Hlow Hle).
      assert (Hv : x (vel s) < 0).
      { unfold integratedX in Hle, Hne. rewrite Hp in Hle, Hne.
        destruct Hle as [Hlt|Heq]; [nra|contradiction]. }
      apply Rabs_left. exact Hv.
    + assert (Hgt : padding (bounds s) < integratedX t last s) by lra.
      rewrite (Hhigh Hgt).
      assert (Hv : 0 < x (vel s)).
      { unfold integratedX in Hgt. rewrite Hp in Hgt. nra. }
      rewrite Rabs_right; lra.
Qed.

(** The 20 by 300 container: the first frame parks x at 24 and the second
    one, which integrates x to 26.89, turns the bug round. *)
Lemma cramped_axis_flips_witness :
  x (pos (step 16 0 0 0 narrow)) = padding (bounds narrow) /\
  x (vel (step 33 16 0 0 (step 16 0 0 0 narrow))) = - x (vel (step 16 0 0 0 narrow)).
Proof.
  assert (Hd : dragging narrow = false) by reflexivity.
  assert (Hw : w (bounds narrow) <= 2 * padding (bounds narrow)) by (cbn; lra).
  destruct (cramped_axis_flips 16 0 0 0 (mkPointerEvent 0 0) (mkDOMRect 0 0 20 300)
              narrow Hw) as (Hstep & _).
  assert (Hp := Hstep Hd).
  split; [exact Hp|].
  destruct narrow_fields as (Hpn & Hvn & _ & Hbn).
  assert (Hn0 : 16 < nextChangeAt narrow).
  { unfold narrow. cbn.
    unfold nextDeadline, CHANGE_INTERVAL_MIN, CHANGE_INTERVAL_MAX. lra. }
  assert (Hv1 : x (vel (step 16 0 0 0 narrow)) = 170).
  { rewrite (step_vel_x _ _ _ _ _ Hd), (redirected_keeps _ _ _ Hn0).
    unfold integratedX, minX. rewrite Hpn, Hvn, Hbn. cbn [x y padding].
    destruct (Rle_dec _ _) as [_|Hc]; [|lra].
    apply Rabs_right. lra. }
  set (s1 := step 16 0 0 0 narrow) in *.
  assert (Hb1 : bounds s1 = bounds narrow) by apply step_bounds.
  assert (Hd1 : dragging s1 = false) by (unfold s1; rewrite step_flag; exact Hd).
  assert (Hw1 : w (bounds s1) <= 2 * padding (bounds s1)) by (rewrite Hb1; exact Hw).
  assert (Hn1 : 33 < nextChangeAt s1).
  { unfold s1. rewrite (step_deadline _ _ _ _ _ Hd).
    destruct (Rge_dec 16 (nextChangeAt narrow)); [lra|].
    unfold narrow. cbn.
    unfold nextDeadline, CHANGE_INTERVAL_MIN, CHANGE_INTERVAL_MAX. lra. }
  destruct (cramped_axis_flips 33 16 0 0 (mkPointerEvent 0 0) (mkDOMRect 0 0 20 300)
              s1 Hw1) as (_ & _ & _ & Hflip).
  apply Hflip.
  - exact Hd1.
  - exact Hn1.
  - rewrite Hb1. exact Hp.
  - lra.
  - unfold integratedX. rewrite Hb1, Hp, Hv1, Hbn. cbn [padding]. lra.
Defined.

End BugRunner.
